(** * In-memory user and entity registries of the API backend

    Shallow embedding of [src/api/routers/users.py] and
    [src/api/routers/entities.py].

    Conventions of the embedding:
    - a Python [int] is a [Z];
    - a Python [str] is a [string], one [ascii] per character (code points
      up to 255), so that [String.length] is Python's [len];
    - a Python [dict] keyed by [int] is an association list in insertion
      order (the order [dict.values()] iterates in);
    - the module-level globals of a router ([_IN_MEMORY_USERS], [_NEXT_ID],
      ...) are the fields of a state record that every handler receives and
      returns;
    - a handler returns the value it returns or the exception it raises,
      together with the state it leaves behind. *)

From Stdlib Require Import ZArith List String Ascii Bool Lia Sorted.
Import ListNotations.
Local Open Scope string_scope.
Local Open Scope list_scope.
Local Open Scope Z_scope.

(** ** Python dictionaries keyed by integers *)

Definition dict (V : Type) : Type := list (Z * V).

Module Dict.

Definition empty {V} : dict V := [].

(** [d.get(k)] *)
Fixpoint get {V} (k : Z) (d : dict V) : option V :=
  match d with
  | [] => None
  | (k', v) :: d' => if k =? k' then Some v else get k d'
  end.

(** [k in d] *)
Definition contains {V} (k : Z) (d : dict V) : bool :=
  match get k d with Some _ => true | None => false end.

(** [d[k] = v]: an existing key keeps its position, a new key goes last. *)
Fixpoint set {V} (k : Z) (v : V) (d : dict V) : dict V :=
  match d with
  | [] => [(k, v)]
  | (k', v') :: d' => if k =? k' then (k, v) :: d' else (k', v') :: set k v d'
  end.

(** [del d[k]] *)
Fixpoint del {V} (k : Z) (d : dict V) : dict V :=
  match d with
  | [] => []
  | (k', v') :: d' => if k =? k' then del k d' else (k', v') :: del k d'
  end.

(** [d.keys()] and [d.values()], in insertion order. *)
Definition keys {V} (d : dict V) : list Z := map fst d.
Definition values {V} (d : dict V) : list V := map snd d.

End Dict.

(** ** Outcome of a request *)

(** What a call of an endpoint produces: the returned value, an
    [HTTPException] raised by the handler, FastAPI's rejection of a request
    body that fails the payload model (status 422, the specification's
    ValidationError), or a pydantic validation error raised while
    the handler builds its response model (it escapes the handler: status
    500). *)
Inductive result (A : Type) : Type :=
| Ok (a : A)
| HTTPException (status_code : Z) (detail : string)
| RequestValidationError
| ResponseModelError.

Arguments Ok {A} a.
Arguments HTTPException {A} status_code detail.
Arguments RequestValidationError {A}.
Arguments ResponseModelError {A}.

(** The same outcome, with the returned value wrapped. *)
Definition rmap {A B} (f : A -> B) (r : result A) : result B :=
  match r with
  | Ok a => Ok (f a)
  | HTTPException c d => HTTPException c d
  | RequestValidationError => RequestValidationError
  | ResponseModelError => ResponseModelError
  end.

(** ** Request bodies and pydantic field declarations *)

(** A member of a JSON request body: missing, [null], or a value of the
    declared type. *)
Inductive field (A : Type) : Type :=
| Absent
| Null
| Given (a : A).

Arguments Absent {A}.
Arguments Null {A}.
Arguments Given {A} a.

(** The [min_length] constraint of a [Field]. *)
Definition min_length_ok (n : nat) (s : string) : bool :=
  (n <=? String.length s)%nat.

(** [x: str = Field(..., min_length=n)] *)
Definition required_str (n : nat) (f : field string) : option string :=
  match f with
  | Given s => if min_length_ok n s then Some s else None
  | Absent | Null => None
  end.

(** [x: Optional[str] = Field(None, min_length=n)]: [None] is accepted as it
    is, a string has to satisfy the constraint. *)
Definition optional_str (n : nat) (f : field string) : option (option string) :=
  match f with
  | Given s => if min_length_ok n s then Some (Some s) else None
  | Absent | Null => Some None
  end.

(** Binding of the option monad, for the field-by-field validation of a
    payload model. *)
Definition obind {A B} (o : option A) (k : A -> option B) : option B :=
  match o with Some a => k a | None => None end.

Notation "x <- e ;; k" := (obind e (fun x => k))
  (at level 61, e at next level, right associativity).

(** ** The user registry ([routers/users.py]) *)

Module Users.

(** The dictionaries stored in [_IN_MEMORY_USERS]; every one of them has
    exactly the keys ["id"], ["email"], ["full_name"] and ["password"], so
    it is never empty and [not u] holds of [None] only. *)
Record UserRecord : Type := mkUserRecord {
  rec_id : Z;
  rec_email : string;
  rec_full_name : option string;
  rec_password : string
}.

(** [class UserCreate(UserBase)], a validated payload. *)
Record UserCreate : Type := mkUserCreate {
  uc_email : string;
  uc_full_name : option string;
  uc_password : string
}.

(** [class UserUpdate(BaseModel)], a validated payload. *)
Record UserUpdate : Type := mkUserUpdate {
  uu_full_name : option string;
  uu_password : option string
}.

(** [class User(UserBase)], the model returned to clients.  Its [email] is
    only ever built from an address that was validated when its payload was. *)
Record User : Type := mkUser {
  id : Z;
  email : string;
  full_name : option string
}.

(** The globals of the module. *)
Record state : Type := mkState {
  _IN_MEMORY_USERS : dict UserRecord;
  _NEXT_ID : Z
}.

(** The state when the module has been loaded. *)
Definition init : state := mkState Dict.empty 1.

Definition _get_next_id (st : state) : Z * state :=
  let nid := _NEXT_ID st in
  (nid, mkState (_IN_MEMORY_USERS st) (_NEXT_ID st + 1)).

(** [User(id=u["id"], email=u["email"], full_name=u.get("full_name"))] *)
Definition view (u : UserRecord) : User :=
  mkUser (rec_id u) (rec_email u) (rec_full_name u).

(** Raw request bodies, before validation. *)
Record UserCreateBody : Type := mkUserCreateBody {
  ucb_email : field string;
  ucb_full_name : field string;
  ucb_password : field string
}.

Record UserUpdateBody : Type := mkUserUpdateBody {
  uub_full_name : field string;
  uub_password : field string
}.

Section Handlers.

(** Python's [str.lower]. *)
Variable str_lower : string -> string.

(** pydantic's [EmailStr]: the validated address, or a failure. *)
Variable EmailStr : string -> option string.

(** The loop of [create_user] over [_IN_MEMORY_USERS.values()], which raises
    at the first record with the same lower-cased email. *)
Fixpoint email_taken (e : string) (us : list UserRecord) : bool :=
  match us with
  | [] => false
  | u :: us' =>
      if String.eqb (str_lower (rec_email u)) (str_lower e) then true
      else email_taken e us'
  end.

Definition create_user (payload : UserCreate) (st : state) : result User * state :=
  if email_taken (uc_email payload) (Dict.values (_IN_MEMORY_USERS st)) then
    (HTTPException 409 "Email already registered.", st)
  else
    let '(user_id, st1) := _get_next_id st in
    let u := mkUserRecord user_id (uc_email payload) (uc_full_name payload)
                          (uc_password payload) in
    (Ok (mkUser user_id (uc_email payload) (uc_full_name payload)),
     mkState (Dict.set user_id u (_IN_MEMORY_USERS st1)) (_NEXT_ID st1)).

Definition list_users (st : state) : result (list User) * state :=
  (Ok (map view (Dict.values (_IN_MEMORY_USERS st))), st).

Definition get_user (user_id : Z) (st : state) : result User * state :=
  match Dict.get user_id (_IN_MEMORY_USERS st) with
  | None => (HTTPException 404 "User not found.", st)
  | Some u => (Ok (view u), st)
  end.

(** The two conditional assignments of [update_user] to the stored
    dictionary [u]. *)
Definition apply_update (payload : UserUpdate) (u : UserRecord) : UserRecord :=
  let u1 :=
    match uu_full_name payload with
    | Some n => mkUserRecord (rec_id u) (rec_email u) (Some n) (rec_password u)
    | None => u
    end in
  match uu_password payload with
  | Some p => mkUserRecord (rec_id u1) (rec_email u1) (rec_full_name u1) p
  | None => u1
  end.

(** [u] is the dictionary held by the store, so assigning to its keys
    changes the store at [user_id], in place. *)
Definition update_user (user_id : Z) (payload : UserUpdate) (st : state)
  : result User * state :=
  match Dict.get user_id (_IN_MEMORY_USERS st) with
  | None => (HTTPException 404 "User not found.", st)
  | Some u =>
      let u' := apply_update payload u in
      (Ok (view u'),
       mkState (Dict.set user_id u' (_IN_MEMORY_USERS st)) (_NEXT_ID st))
  end.

Definition delete_user (user_id : Z) (st : state) : result unit * state :=
  if negb (Dict.contains user_id (_IN_MEMORY_USERS st)) then
    (HTTPException 404 "User not found.", st)
  else
    (Ok tt, mkState (Dict.del user_id (_IN_MEMORY_USERS st)) (_NEXT_ID st)).

(** Validation of the request bodies against the payload models. *)
Definition parse_UserCreate (b : UserCreateBody) : option UserCreate :=
  e0 <- required_str 0 (ucb_email b) ;;
  e <- EmailStr e0 ;;
  n <- optional_str 0 (ucb_full_name b) ;;
  p <- required_str 6 (ucb_password b) ;;
  Some (mkUserCreate e n p).

Definition parse_UserUpdate (b : UserUpdateBody) : option UserUpdate :=
  n <- optional_str 0 (uub_full_name b) ;;
  p <- optional_str 6 (uub_password b) ;;
  Some (mkUserUpdate n p).

(** The routes: the body is validated before the handler runs. *)
Definition post_users (b : UserCreateBody) (st : state) : result User * state :=
  match parse_UserCreate b with
  | None => (RequestValidationError, st)
  | Some payload => create_user payload st
  end.

Definition patch_users (user_id : Z) (b : UserUpdateBody) (st : state)
  : result User * state :=
  match parse_UserUpdate b with
  | None => (RequestValidationError, st)
  | Some payload => update_user user_id payload st
  end.

(** Calls of the handlers, and what they answer. *)
Inductive call : Type :=
| CreateUser (payload : UserCreate)
| ListUsers
| GetUser (user_id : Z)
| UpdateUser (user_id : Z) (payload : UserUpdate)
| DeleteUser (user_id : Z).

Inductive reply : Type :=
| OneUser (u : User)
| ManyUsers (us : list User)
| NoContent.

Definition step (c : call) (st : state) : result reply * state :=
  match c with
  | CreateUser p => let '(r, st') := create_user p st in (rmap OneUser r, st')
  | ListUsers => let '(r, st') := list_users st in (rmap ManyUsers r, st')
  | GetUser i => let '(r, st') := get_user i st in (rmap OneUser r, st')
  | UpdateUser i p => let '(r, st') := update_user i p st in (rmap OneUser r, st')
  | DeleteUser i => let '(r, st') := delete_user i st in (rmap (fun _ => NoContent) r, st')
  end.

(** A sequence of calls, with the answer to each. *)
Fixpoint run (cs : list call) (st : state) : list (call * result reply) * state :=
  match cs with
  | [] => ([], st)
  | c :: cs' =>
      let '(r, st1) := step c st in
      let '(tr, st2) := run cs' st1 in
      ((c, r) :: tr, st2)
  end.

End Handlers.

End Users.

(** ** The entity registry ([routers/entities.py]) *)

Module Entities.

Section WithAny.

(** The values of a metadata map ([typing.Any]); no handler looks at them. *)
Variable Any : Type.

(** [Dict[str, Any]], in insertion order. *)
Definition Metadata : Type := list (string * Any).

(** The dictionaries stored in [_ENTITIES]: keys ["id"], ["name"],
    ["description"] and ["metadata"].  The value under ["metadata"] is
    always a dictionary: [create_entity] stores [payload.metadata or {}] and
    [update_entity] assigns it only a payload value that is not [None]. *)
Record EntityRecord : Type := mkEntityRecord {
  rec_id : Z;
  rec_name : string;
  rec_description : option string;
  rec_metadata : Metadata
}.

(** [class EntityCreate(EntityBase)], a validated payload. *)
Record EntityCreate : Type := mkEntityCreate {
  ec_name : string;
  ec_description : option string;
  ec_metadata : option Metadata
}.

(** [class EntityUpdate(BaseModel)], a validated payload. *)
Record EntityUpdate : Type := mkEntityUpdate {
  eu_name : option string;
  eu_description : option string;
  eu_metadata : option Metadata
}.

(** [class Entity(EntityBase)], the model returned to clients. *)
Record Entity : Type := mkEntity {
  id : Z;
  name : string;
  description : option string;
  metadata : Metadata
}.

Record state : Type := mkState {
  _ENTITIES : dict EntityRecord;
  _ENTITIES_NEXT_ID : Z
}.

Definition init : state := mkState Dict.empty 1.

Definition _entity_next_id (st : state) : Z * state :=
  let v := _ENTITIES_NEXT_ID st in
  (v, mkState (_ENTITIES st) (_ENTITIES_NEXT_ID st + 1)).

(** [payload.metadata or {}]: [None] and the empty dictionary are falsy. *)
Definition metadata_or_empty (m : option Metadata) : Metadata :=
  match m with
  | None => []
  | Some [] => []
  | Some (kv :: m') => kv :: m'
  end.

(** The model [Entity] built from the keys of [e]: it validates its fields,
    and [name] is declared in [EntityBase] with [min_length=1]. *)
Definition Entity_of (e : EntityRecord) : option Entity :=
  if min_length_ok 1 (rec_name e) then
    Some (mkEntity (rec_id e) (rec_name e) (rec_description e) (rec_metadata e))
  else None.

(** A failure to build the model escapes the handler. *)
Definition construct {A} (o : option A) : result A :=
  match o with Some v => Ok v | None => ResponseModelError end.

(** The list comprehension of [list_entities]: it fails as soon as one
    construction does. *)
Fixpoint Entities_of (es : list EntityRecord) : option (list Entity) :=
  match es with
  | [] => Some []
  | e :: es' =>
      v <- Entity_of e ;;
      vs <- Entities_of es' ;;
      Some (v :: vs)
  end.

(** [_ENTITIES[eid]] in the [return] is the dictionary stored on the line
    before. *)
Definition create_entity (payload : EntityCreate) (st : state)
  : result Entity * state :=
  let '(eid, st1) := _entity_next_id st in
  let e := mkEntityRecord eid (ec_name payload) (ec_description payload)
                          (metadata_or_empty (ec_metadata payload)) in
  (construct (Entity_of e),
   mkState (Dict.set eid e (_ENTITIES st1)) (_ENTITIES_NEXT_ID st1)).

Definition list_entities (st : state) : result (list Entity) * state :=
  (construct (Entities_of (Dict.values (_ENTITIES st))), st).

Definition get_entity (entity_id : Z) (st : state) : result Entity * state :=
  match Dict.get entity_id (_ENTITIES st) with
  | None => (HTTPException 404 "Entity not found.", st)
  | Some e => (construct (Entity_of e), st)
  end.

(** The three conditional assignments of [update_entity] to the stored
    dictionary [e]. *)
Definition apply_update (payload : EntityUpdate) (e : EntityRecord) : EntityRecord :=
  let e1 :=
    match eu_name payload with
    | Some n => mkEntityRecord (rec_id e) n (rec_description e) (rec_metadata e)
    | None => e
    end in
  let e2 :=
    match eu_description payload with
    | Some d => mkEntityRecord (rec_id e1) (rec_name e1) (Some d) (rec_metadata e1)
    | None => e1
    end in
  match eu_metadata payload with
  | Some m => mkEntityRecord (rec_id e2) (rec_name e2) (rec_description e2) m
  | None => e2
  end.

(** The assignments go to the dictionary held by the store, before
    the [Entity] is built: the store keeps them when the construction
    fails. *)
Definition update_entity (entity_id : Z) (payload : EntityUpdate) (st : state)
  : result Entity * state :=
  match Dict.get entity_id (_ENTITIES st) with
  | None => (HTTPException 404 "Entity not found.", st)
  | Some e =>
      let e' := apply_update payload e in
      (construct (Entity_of e'),
       mkState (Dict.set entity_id e' (_ENTITIES st)) (_ENTITIES_NEXT_ID st))
  end.

Definition delete_entity (entity_id : Z) (st : state) : result unit * state :=
  if negb (Dict.contains entity_id (_ENTITIES st)) then
    (HTTPException 404 "Entity not found.", st)
  else
    (Ok tt, mkState (Dict.del entity_id (_ENTITIES st)) (_ENTITIES_NEXT_ID st)).

(** Raw request bodies, before validation. *)
Record EntityCreateBody : Type := mkEntityCreateBody {
  ecb_name : field string;
  ecb_description : field string;
  ecb_metadata : field Metadata
}.

Record EntityUpdateBody : Type := mkEntityUpdateBody {
  eub_name : field string;
  eub_description : field string;
  eub_metadata : field Metadata
}.

(** [metadata: Optional[Dict[str, Any]] = Field(default_factory=dict)]:
    a missing member takes the default, an explicit [null] stays [None]. *)
Definition metadata_default_dict (f : field Metadata) : option Metadata :=
  match f with
  | Absent => Some []
  | Null => None
  | Given m => Some m
  end.

(** [metadata: Optional[Dict[str, Any]] = Field(None)] *)
Definition metadata_default_none (f : field Metadata) : option Metadata :=
  match f with
  | Absent | Null => None
  | Given m => Some m
  end.

Definition parse_EntityCreate (b : EntityCreateBody) : option EntityCreate :=
  n <- required_str 1 (ecb_name b) ;;
  d <- optional_str 0 (ecb_description b) ;;
  Some (mkEntityCreate n d (metadata_default_dict (ecb_metadata b))).

Definition parse_EntityUpdate (b : EntityUpdateBody) : option EntityUpdate :=
  n <- optional_str 0 (eub_name b) ;;
  d <- optional_str 0 (eub_description b) ;;
  Some (mkEntityUpdate n d (metadata_default_none (eub_metadata b))).

(** The routes: the body is validated before the handler runs. *)
Definition post_entities (b : EntityCreateBody) (st : state)
  : result Entity * state :=
  match parse_EntityCreate b with
  | None => (RequestValidationError, st)
  | Some payload => create_entity payload st
  end.

Definition patch_entities (entity_id : Z) (b : EntityUpdateBody) (st : state)
  : result Entity * state :=
  match parse_EntityUpdate b with
  | None => (RequestValidationError, st)
  | Some payload => update_entity entity_id payload st
  end.

(** Calls of the handlers, and what they answer. *)
Inductive call : Type :=
| CreateEntity (payload : EntityCreate)
| ListEntities
| GetEntity (entity_id : Z)
| UpdateEntity (entity_id : Z) (payload : EntityUpdate)
| DeleteEntity (entity_id : Z).

Inductive reply : Type :=
| OneEntity (e : Entity)
| ManyEntities (es : list Entity)
| NoContent.

Definition step (c : call) (st : state) : result reply * state :=
  match c with
  | CreateEntity p => let '(r, st') := create_entity p st in (rmap OneEntity r, st')
  | ListEntities => let '(r, st') := list_entities st in (rmap ManyEntities r, st')
  | GetEntity i => let '(r, st') := get_entity i st in (rmap OneEntity r, st')
  | UpdateEntity i p => let '(r, st') := update_entity i p st in (rmap OneEntity r, st')
  | DeleteEntity i => let '(r, st') := delete_entity i st in (rmap (fun _ => NoContent) r, st')
  end.

Fixpoint run (cs : list call) (st : state) : list (call * result reply) * state :=
  match cs with
  | [] => ([], st)
  | c :: cs' =>
      let '(r, st1) := step c st in
      let '(tr, st2) := run cs' st1 in
      ((c, r) :: tr, st2)
  end.

End WithAny.

Arguments mkEntityRecord {Any}.
Arguments mkEntityCreate {Any}.
Arguments mkEntityUpdate {Any}.
Arguments mkEntity {Any}.
Arguments mkState {Any}.
Arguments mkEntityCreateBody {Any}.
Arguments mkEntityUpdateBody {Any}.
Arguments init {Any}.
Arguments rec_id {Any}.
Arguments rec_name {Any}.
Arguments rec_description {Any}.
Arguments rec_metadata {Any}.
Arguments ec_name {Any}.
Arguments ec_description {Any}.
Arguments ec_metadata {Any}.
Arguments eu_name {Any}.
Arguments eu_description {Any}.
Arguments eu_metadata {Any}.
Arguments id {Any}.
Arguments name {Any}.
Arguments description {Any}.
Arguments metadata {Any}.
Arguments _ENTITIES {Any}.
Arguments _ENTITIES_NEXT_ID {Any}.
Arguments ecb_name {Any}.
Arguments ecb_description {Any}.
Arguments ecb_metadata {Any}.
Arguments eub_name {Any}.
Arguments eub_description {Any}.
Arguments eub_metadata {Any}.
Arguments CreateEntity {Any}.
Arguments ListEntities {Any}.
Arguments GetEntity {Any}.
Arguments UpdateEntity {Any}.
Arguments DeleteEntity {Any}.
Arguments OneEntity {Any}.
Arguments ManyEntities {Any}.
Arguments NoContent {Any}.

End Entities.

(** ** What a trace shows of the identifiers *)

(** The part of an answered call that concerns identifiers: an identifier
    returned by a successful create, the identifiers of a list result, the
    identifier of a successful delete, or nothing. *)
Inductive event : Type :=
| Issued (i : Z)
| Listed (ids : list Z)
| Deleted (i : Z)
| Silent.

Definition user_event (x : Users.call * result Users.reply) : event :=
  match x with
  | (Users.CreateUser _, Ok (Users.OneUser u)) => Issued (Users.id u)
  | (Users.ListUsers, Ok (Users.ManyUsers us)) => Listed (map Users.id us)
  | (Users.DeleteUser i, Ok Users.NoContent) => Deleted i
  | _ => Silent
  end.

Definition entity_event {Any} (x : Entities.call Any * result (Entities.reply Any))
  : event :=
  match x with
  | (Entities.CreateEntity _, Ok (Entities.OneEntity e)) => Issued (Entities.id e)
  | (Entities.ListEntities, Ok (Entities.ManyEntities es)) =>
      Listed (map Entities.id es)
  | (Entities.DeleteEntity i, Ok Entities.NoContent) => Deleted i
  | _ => Silent
  end.

(** The identifiers issued along a trace, oldest first. *)
Fixpoint issued (evs : list event) : list Z :=
  match evs with
  | [] => []
  | Issued i :: evs' => i :: issued evs'
  | _ :: evs' => issued evs'
  end.

(** Every issued identifier is above all the ones issued before it (so no
    two are equal), and once an identifier has been deleted no later create
    returns it and no later list result contains it. *)
Definition fresh_identifiers (evs : list event) : Prop :=
  StronglySorted Z.lt (issued evs) /\
  NoDup (issued evs) /\
  forall evs1 i evs2,
    evs = evs1 ++ Deleted i :: evs2 ->
    ~ In i (issued evs2) /\ forall ids, In (Listed ids) evs2 -> ~ In i ids.

(** The allocator that both registries implement: the identifiers in use
    and the counter. *)
Record alloc : Type := mkAlloc {
  a_keys : list Z;
  a_next : Z
}.

(** One answered call, seen on the allocator: the counter never goes back,
    an identifier that comes into use is taken from the counter, and the
    event agrees with the identifiers in use. *)
Definition astep (a : alloc) (e : event) (a' : alloc) : Prop :=
  a_next a <= a_next a' /\
  (forall k, In k (a_keys a') -> In k (a_keys a) \/ a_next a <= k < a_next a') /\
  match e with
  | Issued i => a_next a <= i < a_next a'
  | Listed ids => incl ids (a_keys a)
  | Deleted i => In i (a_keys a) /\ ~ In i (a_keys a')
  | Silent => True
  end.

Inductive asteps : alloc -> list event -> alloc -> Prop :=
| asteps_nil a : asteps a [] a
| asteps_cons a e a1 evs a' :
    astep a e a1 -> asteps a1 evs a' -> asteps a (e :: evs) a'.

(** Identifiers in use are below the counter. *)
Definition below_counter (a : alloc) : Prop :=
  forall k, In k (a_keys a) -> k < a_next a.

(** An identifier that was in use and is not any more. *)
Definition retired (i : Z) (a : alloc) : Prop :=
  ~ In i (a_keys a) /\ i < a_next a.

Definition user_alloc (st : Users.state) : alloc :=
  mkAlloc (Dict.keys (Users._IN_MEMORY_USERS st)) (Users._NEXT_ID st).

Definition entity_alloc {Any} (st : Entities.state Any) : alloc :=
  mkAlloc (Dict.keys (Entities._ENTITIES st)) (Entities._ENTITIES_NEXT_ID st).

(** Every stored record carries its key under ["id"]. *)
Definition user_keyed (st : Users.state) : Prop :=
  Forall (fun kv => Users.rec_id (snd kv) = fst kv) (Users._IN_MEMORY_USERS st).

Definition entity_keyed {Any} (st : Entities.state Any) : Prop :=
  Forall (fun kv => Entities.rec_id (snd kv) = fst kv) (Entities._ENTITIES st).

(** ** Registry states that differ in stored passwords only *)

Definition same_but_passwords (st1 st2 : Users.state) : Prop :=
  Users._NEXT_ID st1 = Users._NEXT_ID st2 /\
  Forall2 (fun kv1 kv2 => fst kv1 = fst kv2 /\ Users.view (snd kv1) = Users.view (snd kv2))
          (Users._IN_MEMORY_USERS st1) (Users._IN_MEMORY_USERS st2).

(** The answers of a trace. *)
Definition answers {C R} (tr : list (C * R)) : list R := map snd tr.

(** ** An instance of [str.lower] for the examples *)

(** Lower-casing of the code points up to 255: the letters [A]-[Z] and the
    accented capitals 192-214 and 216-222 move up by 32. *)
Definition lower_char (c : ascii) : ascii :=
  let n := N.of_nat (nat_of_ascii c) in
  if ((65 <=? n) && (n <=? 90) || (192 <=? n) && (n <=? 214)
      || (216 <=? n) && (n <=? 222))%N
  then ascii_of_N (n + 32) else c.

Fixpoint latin1_lower (s : string) : string :=
  match s with
  | EmptyString => EmptyString
  | String c s' => String (lower_char c) (latin1_lower s')
  end.

(** ** Well-formed registry states *)

(** What every state reached from the loaded module satisfies: no key
    occurs twice, every record carries its key under ["id"], and the keys
    lie between 1 and the counter. *)
Definition user_wf (st : Users.state) : Prop :=
  NoDup (Dict.keys (Users._IN_MEMORY_USERS st)) /\
  user_keyed st /\
  1 <= Users._NEXT_ID st /\
  forall k, In k (Dict.keys (Users._IN_MEMORY_USERS st)) -> 1 <= k < Users._NEXT_ID st.

(** The lower-cased emails of the stored users, in insertion order. *)
Definition lowered_emails (str_lower : string -> string) (st : Users.state)
  : list string :=
  map (fun u => str_lower (Users.rec_email u)) (Dict.values (Users._IN_MEMORY_USERS st)).

Definition entity_wf {Any} (st : Entities.state Any) : Prop :=
  NoDup (Dict.keys (Entities._ENTITIES st)) /\
  entity_keyed st /\
  1 <= Entities._ENTITIES_NEXT_ID st /\
  forall k, In k (Dict.keys (Entities._ENTITIES st)) ->
            1 <= k < Entities._ENTITIES_NEXT_ID st.

(** Every stored entity has a name of at least one character. *)
Definition entity_named {Any} (st : Entities.state Any) : Prop :=
  Forall (fun kv => min_length_ok 1 (Entities.rec_name (snd kv)) = true)
         (Entities._ENTITIES st).

(** The model that is built from a stored entity, when it can be built. *)
Definition entity_view {Any} (e : Entities.EntityRecord Any) : Entities.Entity Any :=
  Entities.mkEntity (Entities.rec_id e) (Entities.rec_name e)
                    (Entities.rec_description e) (Entities.rec_metadata e).

(** An answer that leaves no doubt about the request itself: a 404 or a 409
    raised by the handler, or a rejected body. *)
Definition is_refusal {A} (r : result A) : bool :=
  match r with
  | HTTPException _ _ | RequestValidationError => true
  | _ => false
  end.

(** A call whose payload carries no empty name: what [EntityCreate] lets
    through, and an update that leaves the name alone or gives one of at
    least one character. *)
Definition names_entity {Any} (c : Entities.call Any) : bool :=
  match c with
  | Entities.CreateEntity p => min_length_ok 1 (Entities.ec_name p)
  | Entities.UpdateEntity _ p =>
      match Entities.eu_name p with
      | Some n => min_length_ok 1 n
      | None => true
      end
  | _ => true
  end.

(** A create call whose payload has a name of at least one character, as
    [EntityCreate] requires; any other call. *)
Definition create_named {Any} (c : Entities.call Any) : bool :=
  match c with
  | Entities.CreateEntity p => min_length_ok 1 (Entities.ec_name p)
  | _ => true
  end.

(** The [n] integers from [start] on. *)
Fixpoint zseq (start : Z) (n : nat) : list Z :=
  match n with
  | O => []
  | S n' => start :: zseq (start + 1) n'
  end.

(** An answer that is a returned value. *)
Definition is_ok {A} (r : result A) : bool :=
  match r with Ok _ => true | _ => false end.

(** ** The settings ([core/settings.py]) *)

Module Settings.

(** [str.isspace] on the code points up to 255: the controls 9-13 and
    28-31, the space, and the code points 133 and 160. *)
Definition isspace (c : ascii) : bool :=
  let n := N.of_nat (nat_of_ascii c) in
  ((9 <=? n) && (n <=? 13) || (28 <=? n) && (n <=? 31) || (n =? 32)
   || (n =? 133) || (n =? 160))%N.

(** [s.lstrip()], [s.rstrip()] and [s.strip()]. *)
Fixpoint lstrip (s : string) : string :=
  match s with
  | EmptyString => EmptyString
  | String c s' => if isspace c then lstrip s' else s
  end.

Fixpoint rstrip (s : string) : string :=
  match s with
  | EmptyString => EmptyString
  | String c s' =>
      match rstrip s' with
      | EmptyString => if isspace c then EmptyString else String c EmptyString
      | r => String c r
      end
  end.

Definition strip (s : string) : string := rstrip (lstrip s).

(** [s.split(",")]: the pieces between the commas, of which there is always
    at least one. *)
Fixpoint split_comma (s : string) : list string :=
  match s with
  | EmptyString => [EmptyString]
  | String c s' =>
      if Ascii.eqb c "," then EmptyString :: split_comma s'
      else match split_comma s' with
           | [] => [String c EmptyString]
           | p :: ps => String c p :: ps
           end
  end.

(** [",".join(ps)] *)
Fixpoint join_comma (ps : list string) : string :=
  match ps with
  | [] => EmptyString
  | [p] => p
  | p :: ps' => String.append p (String "," (join_comma ps'))
  end.

(** The truth value of a string: the empty string is falsy. *)
Definition nonempty (s : string) : bool :=
  match s with EmptyString => false | String _ _ => true end.

(** [sub in s] *)
Fixpoint str_contains (sub s : string) : bool :=
  String.prefix sub s ||
  match s with
  | EmptyString => false
  | String _ s' => str_contains sub s'
  end.

(** [class Settings(BaseModel)] *)
Record Settings : Type := mkSettings {
  app_name : string;
  environment : string;
  cors_allow_origins_raw : option string;
  database_url : string
}.

(** The property [cors_allow_origins]. *)
Definition cors_allow_origins (self : Settings) : list string :=
  match cors_allow_origins_raw self with
  | None => ["*"]
  | Some raw =>
      if negb (nonempty raw) || String.eqb (strip raw) "*" then ["*"]
      else filter nonempty (map strip (split_comma raw))
  end.

(** What [validate_db_url] does with a string: it returns it or raises
    [ValueError]. *)
Inductive validated : Type :=
| Valid (v : string)
| ValueError (msg : string).

Definition validate_db_url (v : string) : validated :=
  if negb (str_contains "://" v) then
    ValueError "DATABASE_URL must be a valid URL string, e.g., sqlite:///./app.db"
  else Valid v.

End Settings.

(** ** The cached OpenAPI schema ([main.py]) *)

Module OpenAPI.

Section WithAny.

(** The values of a schema, with the strings and the dictionaries among
    them. *)
Variable Any : Type.
Variable str_value : string -> Any.
Variable dict_value : list (string * Any) -> Any.

(** The routes of the application, and FastAPI's [get_openapi]. *)
Variable Routes : Type.
Variable get_openapi : string -> string -> string -> Routes -> list (string * Any).

(** A dictionary keyed by strings, in insertion order. *)
Definition Schema : Type := list (string * Any).

Fixpoint sget (k : string) (d : Schema) : option Any :=
  match d with
  | [] => None
  | (k', v) :: d' => if String.eqb k k' then Some v else sget k d'
  end.

Fixpoint sset (k : string) (v : Any) (d : Schema) : Schema :=
  match d with
  | [] => [(k, v)]
  | (k', v') :: d' =>
      if String.eqb k k' then (k, v) :: d' else (k', v') :: sset k v d'
  end.

(** The attributes of [app] that [custom_openapi] reads and writes. *)
Record App : Type := mkApp {
  title : string;
  version : string;
  description : string;
  routes : Routes;
  openapi_schema : option Schema
}.

(** The dictionary stored under ["x-theme"]. *)
Definition x_theme : Any :=
  dict_value
    [("name", str_value "Ocean Professional");
     ("primary", str_value "#2563EB");
     ("secondary", str_value "#F59E0B");
     ("error", str_value "#EF4444");
     ("background", str_value "#f9fafb");
     ("surface", str_value "#ffffff");
     ("text", str_value "#111827");
     ("gradient", str_value "from-blue-500/10 to-gray-50");
     ("style", str_value "modern-minimalist")].

(** [if app.openapi_schema] holds of a dictionary that is not empty. *)
Definition custom_openapi (app : App) : Schema * App :=
  match openapi_schema app with
  | Some (kv :: s) => (kv :: s, app)
  | _ =>
      let generated :=
        get_openapi (title app) (version app) (description app) (routes app) in
      let s := sset "x-theme" x_theme generated in
      (s, mkApp (title app) (version app) (description app) (routes app) (Some s))
  end.

End WithAny.

Arguments mkApp {Any Routes}.
Arguments title {Any Routes}.
Arguments version {Any Routes}.
Arguments description {Any Routes}.
Arguments routes {Any Routes}.
Arguments openapi_schema {Any Routes}.
Arguments sget {Any}.
Arguments sset {Any}.

End OpenAPI.

(** ** Facts about dictionaries *)

Section DictFacts.

Context {V : Type}.
Implicit Types (d : dict V) (k j : Z) (v : V).

Lemma get_set_same k v d : Dict.get k (Dict.set k v d) = Some v.
Proof.
  induction d as [|[k' v'] d IH]; simpl.
  - now rewrite Z.eqb_refl.
  - destruct (k =? k') eqn:E; simpl; rewrite ?Z.eqb_refl, ?E; auto.
Qed.

Lemma get_set_other k j v d : j <> k -> Dict.get j (Dict.set k v d) = Dict.get j d.
Proof.
  intros Hjk. induction d as [|[k' v'] d IH]; simpl.
  - destruct (j =? k) eqn:E; auto. apply Z.eqb_eq in E. contradiction.
  - destruct (k =? k') eqn:E; simpl.
    + apply Z.eqb_eq in E. subst k'.
      destruct (j =? k) eqn:E'; auto. apply Z.eqb_eq in E'. contradiction.
    + now rewrite IH.
Qed.

Lemma get_some_in_keys k v d : Dict.get k d = Some v -> In k (Dict.keys d).
Proof.
  induction d as [|[k' v'] d IH]; simpl; [discriminate|].
  destruct (k =? k') eqn:E; auto.
  apply Z.eqb_eq in E. auto.
Qed.

Lemma get_none_not_in_keys k d : Dict.get k d = None -> ~ In k (Dict.keys d).
Proof.
  induction d as [|[k' v'] d IH]; simpl; auto.
  destruct (k =? k') eqn:E; [discriminate|].
  apply Z.eqb_neq in E. intros H [H1|H1]; [congruence|]. now apply IH.
Qed.

Lemma contains_true_in_keys k d : Dict.contains k d = true -> In k (Dict.keys d).
Proof.
  unfold Dict.contains. destruct (Dict.get k d) eqn:E; [|discriminate].
  intros _. eapply get_some_in_keys; eauto.
Qed.

Lemma contains_get_none k d : Dict.get k d = None -> Dict.contains k d = false.
Proof. unfold Dict.contains. now intros ->. Qed.

Lemma keys_set_present k v v' d :
  Dict.get k d = Some v' -> Dict.keys (Dict.set k v d) = Dict.keys d.
Proof.
  induction d as [|[k' w] d IH]; simpl; [discriminate|].
  destruct (k =? k') eqn:E; simpl.
  - apply Z.eqb_eq in E. now subst.
  - intros H. now rewrite IH.
Qed.

Lemma keys_set_absent k v d :
  Dict.get k d = None -> Dict.keys (Dict.set k v d) = Dict.keys d ++ [k].
Proof.
  induction d as [|[k' w] d IH]; simpl; auto.
  destruct (k =? k') eqn:E; simpl; [discriminate|].
  intros H. now rewrite IH.
Qed.

Lemma in_keys_set k j v d :
  In j (Dict.keys (Dict.set k v d)) -> j = k \/ In j (Dict.keys d).
Proof.
  induction d as [|[k' w] d IH]; simpl.
  - intros [H|[]]; auto.
  - destruct (k =? k') eqn:E; simpl.
    + intros [H|H]; auto.
    + intros [H|H]; auto. destruct (IH H); auto.
Qed.

Lemma in_keys_del k j d :
  In j (Dict.keys (Dict.del k d)) -> In j (Dict.keys d) /\ j <> k.
Proof.
  induction d as [|[k' w] d IH]; simpl; [tauto|].
  destruct (k =? k') eqn:E; simpl.
  - intros H. destruct (IH H). auto.
  - apply Z.eqb_neq in E. intros [H|H].
    + subst. split; auto.
    + destruct (IH H). auto.
Qed.

Lemma get_del_same k d : Dict.get k (Dict.del k d) = None.
Proof.
  induction d as [|[k' w] d IH]; simpl; auto.
  destruct (k =? k') eqn:E; simpl; auto. now rewrite E.
Qed.

Lemma get_del_other k j d : j <> k -> Dict.get j (Dict.del k d) = Dict.get j d.
Proof.
  intros Hjk. induction d as [|[k' w] d IH]; simpl; auto.
  destruct (k =? k') eqn:E; simpl.
  - apply Z.eqb_eq in E. subst k'.
    destruct (j =? k) eqn:E'; auto. apply Z.eqb_eq in E'. contradiction.
  - now rewrite IH.
Qed.

Lemma set_get_same k v d :
  Dict.get k d = Some v -> Dict.set k v d = d.
Proof.
  induction d as [|[k' w] d IH]; simpl; [discriminate|].
  destruct (k =? k') eqn:E.
  - apply Z.eqb_eq in E. now intros [= ->]; subst.
  - intros H. now rewrite IH.
Qed.

(** The representation is that of a dictionary: no key occurs twice. *)
Lemma NoDup_keys_set k v d : NoDup (Dict.keys d) -> NoDup (Dict.keys (Dict.set k v d)).
Proof.
  intros H. destruct (Dict.get k d) eqn:E.
  - erewrite keys_set_present; eauto.
  - rewrite keys_set_absent by auto.
    apply NoDup_app; auto.
    + constructor; [intros []|constructor].
    + intros x Hx [Hk|[]]. subst. eapply get_none_not_in_keys; eauto.
Qed.

Lemma NoDup_keys_del k d : NoDup (Dict.keys d) -> NoDup (Dict.keys (Dict.del k d)).
Proof.
  induction d as [|[k' w] d IH]; simpl; auto.
  intros H. inversion H; subst.
  destruct (k =? k'); simpl; auto.
  constructor; auto. intros Hin. apply in_keys_del in Hin. tauto.
Qed.

Lemma get_some_in k v d : Dict.get k d = Some v -> In (k, v) d.
Proof.
  induction d as [|[k' w] d IH]; simpl; [discriminate|].
  destruct (k =? k') eqn:E; auto.
  apply Z.eqb_eq in E. intros [= ->]. subst. auto.
Qed.

Lemma Forall_set (P : Z * V -> Prop) k v d :
  Forall P d -> P (k, v) -> Forall P (Dict.set k v d).
Proof.
  intros H Hkv. induction H as [|[k' w] d Hx Hd IH]; simpl.
  - constructor; auto.
  - destruct (k =? k'); constructor; auto.
Qed.

Lemma Forall_del (P : Z * V -> Prop) k d : Forall P d -> Forall P (Dict.del k d).
Proof.
  induction 1 as [|[k' w] d Hx Hd IH]; simpl; auto.
  destruct (k =? k'); auto.
Qed.

End DictFacts.

(** ** The allocator: identifiers are fresh *)

Section Allocation.

Lemma asteps_app a evs1 evs2 a' :
  asteps a (evs1 ++ evs2) a' ->
  exists a1, asteps a evs1 a1 /\ asteps a1 evs2 a'.
Proof.
  revert a. induction evs1 as [|e evs1 IH]; simpl; intros a H.
  - exists a. split; [constructor|assumption].
  - inversion H; subst.
    destruct (IH _ H5) as (a2 & H1 & H2).
    exists a2. split; [econstructor; eauto|assumption].
Qed.

Lemma astep_below_counter a e a' :
  below_counter a -> astep a e a' -> below_counter a'.
Proof.
  intros Hinv (Hle & Hkeys & _) k Hk.
  destruct (Hkeys k Hk) as [H|H]; [|lia].
  specialize (Hinv k H). lia.
Qed.

Lemma asteps_below_counter a evs a' :
  below_counter a -> asteps a evs a' -> below_counter a'.
Proof.
  intros Hinv H. induction H; auto.
  eauto using astep_below_counter.
Qed.

Lemma asteps_counter_mono a evs a' : asteps a evs a' -> a_next a <= a_next a'.
Proof.
  induction 1 as [|a e a1 evs a' (Hle & _) _ IH]; lia.
Qed.

(** Whatever is issued from a state on is at or above its counter. *)
Lemma issued_above_counter a evs a' :
  asteps a evs a' -> Forall (fun i => a_next a <= i) (issued evs).
Proof.
  induction 1 as [|a e a1 evs a' Hstep Hrest IH]; simpl; [constructor|].
  assert (Hmono : a_next a <= a_next a1) by apply Hstep.
  assert (Htail : Forall (fun i => a_next a <= i) (issued evs)).
  { eapply Forall_impl; [|exact IH]. simpl. intros; lia. }
  destruct e; auto.
  constructor; auto. destruct Hstep as (_ & _ & Hi). lia.
Qed.

Lemma issued_sorted a evs a' :
  asteps a evs a' -> StronglySorted Z.lt (issued evs).
Proof.
  induction 1 as [|a e a1 evs a' Hstep Hrest IH]; simpl; [constructor|].
  destruct e; auto.
  constructor; auto.
  destruct Hstep as (_ & _ & Hi).
  eapply Forall_impl; [|eapply issued_above_counter; exact Hrest].
  simpl. intros; lia.
Qed.

Lemma sorted_lt_NoDup (l : list Z) : StronglySorted Z.lt l -> NoDup l.
Proof.
  induction 1 as [|x l Hs IH Hall]; constructor; auto.
  intros Hin. rewrite Forall_forall in Hall.
  specialize (Hall x Hin). lia.
Qed.

Lemma astep_retired i a e a' : retired i a -> astep a e a' -> retired i a'.
Proof.
  intros (Hnot & Hlt) (Hle & Hkeys & _). split; [|lia].
  intros Hin. destruct (Hkeys i Hin); [contradiction|lia].
Qed.

(** A retired identifier stays out of every later create and list. *)
Lemma retired_never_seen i a evs a' :
  retired i a -> asteps a evs a' ->
  ~ In i (issued evs) /\ forall ids, In (Listed ids) evs -> ~ In i ids.
Proof.
  intros Hret H. induction H as [|a e a1 evs a' Hstep Hrest IH]; simpl.
  - split; [tauto|]. intros ids [].
  - destruct (IH (astep_retired _ _ _ _ Hret Hstep)) as (IH1 & IH2).
    destruct Hret as (Hnot & Hlt).
    destruct Hstep as (_ & _ & He).
    split.
    + destruct e; auto. simpl. intros [Heq|Hin]; [lia|contradiction].
    + intros ids [Heq|Hin]; [|eauto].
      subst e. intros Hi. apply Hnot. now apply He.
Qed.

Lemma asteps_fresh a evs a' :
  below_counter a -> asteps a evs a' -> fresh_identifiers evs.
Proof.
  intros Hinv Hrun.
  pose proof (issued_sorted _ _ _ Hrun) as Hsorted.
  split; [assumption|]. split; [now apply sorted_lt_NoDup|].
  intros evs1 i evs2 ->.
  apply asteps_app in Hrun. destruct Hrun as (a1 & Hrun1 & Hrun2).
  inversion Hrun2; subst.
  pose proof (asteps_below_counter _ _ _ Hinv Hrun1) as Hinv1.
  eapply retired_never_seen; [|eassumption].
  match goal with Hs : astep a1 (Deleted i) _ |- _ =>
    destruct Hs as (Hle & _ & Hin & Hout) end.
  split; [assumption|]. specialize (Hinv1 i Hin). lia.
Qed.

End Allocation.

(** ** Both registries implement the allocator *)

Section UsersRefine.

Variable str_lower : string -> string.

Lemma user_apply_update_id p u :
  Users.rec_id (Users.apply_update p u) = Users.rec_id u.
Proof.
  unfold Users.apply_update.
  destruct (Users.uu_full_name p), (Users.uu_password p); reflexivity.
Qed.

Lemma user_apply_update_email p u :
  Users.rec_email (Users.apply_update p u) = Users.rec_email u.
Proof.
  unfold Users.apply_update.
  destruct (Users.uu_full_name p), (Users.uu_password p); reflexivity.
Qed.

Lemma user_keyed_get st k u :
  user_keyed st -> Dict.get k (Users._IN_MEMORY_USERS st) = Some u ->
  Users.rec_id u = k.
Proof.
  unfold user_keyed. rewrite Forall_forall.
  intros H Hget. apply (H (k, u)). now apply get_some_in.
Qed.

Lemma user_keyed_ids st :
  user_keyed st ->
  map Users.id (map Users.view (Dict.values (Users._IN_MEMORY_USERS st)))
  = Dict.keys (Users._IN_MEMORY_USERS st).
Proof.
  unfold user_keyed, Dict.values, Dict.keys.
  induction 1 as [|[k u] d Hx Hd IH]; simpl in *; congruence.
Qed.

Lemma user_step_keyed c st :
  user_keyed st -> user_keyed (snd (Users.step str_lower c st)).
Proof.
  intros Hk. destruct c as [p| |i|i p|i]; simpl.
  - unfold Users.create_user.
    destruct (Users.email_taken _ _ _); simpl; auto.
    apply Forall_set; auto.
  - assumption.
  - unfold Users.get_user.
    destruct (Dict.get _ _); assumption.
  - unfold Users.update_user.
    destruct (Dict.get _ _) as [u|] eqn:E; simpl; auto.
    apply Forall_set; auto. simpl.
    rewrite user_apply_update_id. eapply user_keyed_get; eauto.
  - unfold Users.delete_user.
    destruct (negb _); simpl; auto.
    now apply Forall_del.
Qed.

Lemma user_step_refines c st :
  user_keyed st ->
  astep (user_alloc st)
        (user_event (c, fst (Users.step str_lower c st)))
        (user_alloc (snd (Users.step str_lower c st))).
Proof.
  intros Hk. unfold astep, user_alloc.
  destruct c as [p| |i|i p|i]; simpl.
  - unfold Users.create_user.
    destruct (Users.email_taken _ _ _); simpl.
    + repeat split; try lia; auto.
    + repeat split; try lia.
      intros k Hin. apply in_keys_set in Hin. destruct Hin; [lia|auto].
  - repeat split; try lia; auto.
    rewrite user_keyed_ids by assumption. apply incl_refl.
  - unfold Users.get_user.
    destruct (Dict.get _ _); simpl; repeat split; try lia; auto.
  - unfold Users.update_user.
    destruct (Dict.get _ _) as [u|] eqn:E; simpl.
    + erewrite keys_set_present by eauto. repeat split; try lia; auto.
    + repeat split; try lia; auto.
  - unfold Users.delete_user.
    destruct (Dict.contains _ _) eqn:E; simpl.
    + repeat split; try lia.
      * intros k Hin. apply in_keys_del in Hin. tauto.
      * now apply contains_true_in_keys.
      * intros Hin. apply in_keys_del in Hin. tauto.
    + repeat split; try lia; auto.
Qed.

Lemma user_run_refines cs st :
  user_keyed st ->
  asteps (user_alloc st)
         (map user_event (fst (Users.run str_lower cs st)))
         (user_alloc (snd (Users.run str_lower cs st))).
Proof.
  revert st. induction cs as [|c cs IH]; intros st Hk; simpl.
  - constructor.
  - pose proof (user_step_refines c st Hk) as Hstep.
    pose proof (user_step_keyed c st Hk) as Hk1.
    destruct (Users.step str_lower c st) as [r st1]; simpl in *.
    specialize (IH st1 Hk1).
    destruct (Users.run str_lower cs st1) as [tr st2]; simpl in *.
    econstructor; eauto.
Qed.

Lemma user_init_keyed : user_keyed Users.init.
Proof. constructor. Qed.

Lemma user_init_below_counter : below_counter (user_alloc Users.init).
Proof. intros k []. Qed.

Lemma users_fresh cs :
  fresh_identifiers (map user_event (fst (Users.run str_lower cs Users.init))).
Proof.
  eapply asteps_fresh; [apply user_init_below_counter|].
  apply user_run_refines, user_init_keyed.
Qed.

End UsersRefine.

Section EntitiesRefine.

Context {Any : Type}.
Implicit Types (st : Entities.state Any) (e : Entities.EntityRecord Any).

Lemma entity_apply_update_id (p : Entities.EntityUpdate Any) e :
  Entities.rec_id (Entities.apply_update Any p e) = Entities.rec_id e.
Proof.
  unfold Entities.apply_update.
  destruct (Entities.eu_name p), (Entities.eu_description p),
    (Entities.eu_metadata p); reflexivity.
Qed.

Lemma Entity_of_id e v : Entities.Entity_of Any e = Some v -> Entities.id v = Entities.rec_id e.
Proof.
  unfold Entities.Entity_of. destruct (min_length_ok _ _); [|discriminate].
  now intros [= <-].
Qed.

Lemma Entities_of_ids (es : list (Entities.EntityRecord Any)) vs :
  Entities.Entities_of Any es = Some vs ->
  map Entities.id vs = map Entities.rec_id es.
Proof.
  revert vs. induction es as [|e es IH]; simpl; intros vs.
  - now intros [= <-].
  - destruct (Entities.Entity_of Any e) as [v|] eqn:Ev; simpl; [|discriminate].
    destruct (Entities.Entities_of Any es) as [vs'|]; simpl; [|discriminate].
    intros [= <-]. simpl. f_equal; auto using Entity_of_id.
Qed.

Lemma entity_keyed_get st k e :
  entity_keyed st -> Dict.get k (Entities._ENTITIES st) = Some e ->
  Entities.rec_id e = k.
Proof.
  unfold entity_keyed. rewrite Forall_forall.
  intros H Hget. apply (H (k, e)). now apply get_some_in.
Qed.

Lemma entity_keyed_ids st :
  entity_keyed st ->
  map Entities.rec_id (Dict.values (Entities._ENTITIES st))
  = Dict.keys (Entities._ENTITIES st).
Proof.
  unfold entity_keyed, Dict.values, Dict.keys.
  induction 1 as [|[k u] d Hx Hd IH]; simpl in *; congruence.
Qed.

Lemma entity_step_keyed c st :
  entity_keyed st -> entity_keyed (snd (Entities.step Any c st)).
Proof.
  intros Hk. destruct c as [p| |i|i p|i]; simpl.
  - apply Forall_set; auto.
  - assumption.
  - unfold Entities.get_entity.
    destruct (Dict.get _ _); assumption.
  - unfold Entities.update_entity.
    destruct (Dict.get _ _) as [e|] eqn:E; simpl; auto.
    apply Forall_set; auto. simpl.
    rewrite entity_apply_update_id. eapply entity_keyed_get; eauto.
  - unfold Entities.delete_entity.
    destruct (negb _); simpl; auto.
    now apply Forall_del.
Qed.

Lemma entity_step_refines c st :
  entity_keyed st ->
  astep (entity_alloc st)
        (entity_event (c, fst (Entities.step Any c st)))
        (entity_alloc (snd (Entities.step Any c st))).
Proof.
  intros Hk. unfold astep, entity_alloc.
  destruct c as [p| |i|i p|i]; simpl.
  - assert (Hframe : forall k,
      In k (Dict.keys (Dict.set (Entities._ENTITIES_NEXT_ID st)
        (Entities.mkEntityRecord (Entities._ENTITIES_NEXT_ID st) (Entities.ec_name p)
           (Entities.ec_description p)
           (Entities.metadata_or_empty Any (Entities.ec_metadata p)))
        (Entities._ENTITIES st))) ->
      In k (Dict.keys (Entities._ENTITIES st)) \/
      Entities._ENTITIES_NEXT_ID st <= k < Entities._ENTITIES_NEXT_ID st + 1).
    { intros k Hin. apply in_keys_set in Hin. destruct Hin; [lia|auto]. }
    unfold Entities.Entity_of; simpl.
    destruct (min_length_ok 1 (Entities.ec_name p)); simpl;
      repeat split; try lia; auto.
  - destruct (Entities.Entities_of Any _) as [vs|] eqn:E; simpl;
      repeat split; try lia; auto.
    rewrite (Entities_of_ids _ _ E), entity_keyed_ids by assumption.
    apply incl_refl.
  - unfold Entities.get_entity.
    destruct (Dict.get _ _) as [e|]; simpl; [destruct (Entities.Entity_of Any e)|];
      simpl; repeat split; try lia; auto.
  - unfold Entities.update_entity.
    destruct (Dict.get _ _) as [e|] eqn:E; simpl.
    + erewrite keys_set_present by eauto.
      destruct (Entities.Entity_of Any (Entities.apply_update Any p e));
        simpl; repeat split; try lia; auto.
    + repeat split; try lia; auto.
  - unfold Entities.delete_entity.
    destruct (Dict.contains _ _) eqn:E; simpl.
    + repeat split; try lia.
      * intros k Hin. apply in_keys_del in Hin. tauto.
      * now apply contains_true_in_keys.
      * intros Hin. apply in_keys_del in Hin. tauto.
    + repeat split; try lia; auto.
Qed.

Lemma entity_run_refines cs st :
  entity_keyed st ->
  asteps (entity_alloc st)
         (map entity_event (fst (Entities.run Any cs st)))
         (entity_alloc (snd (Entities.run Any cs st))).
Proof.
  revert st. induction cs as [|c cs IH]; intros st Hk; simpl.
  - constructor.
  - pose proof (entity_step_refines c st Hk) as Hstep.
    pose proof (entity_step_keyed c st Hk) as Hk1.
    destruct (Entities.step Any c st) as [r st1]; simpl in *.
    specialize (IH st1 Hk1).
    destruct (Entities.run Any cs st1) as [tr st2]; simpl in *.
    econstructor; eauto.
Qed.

Lemma entities_fresh cs :
  fresh_identifiers (map entity_event (fst (Entities.run Any cs Entities.init))).
Proof.
  eapply asteps_fresh; [|apply entity_run_refines; constructor].
  intros k [].
Qed.

End EntitiesRefine.

(** ** Stored passwords do not flow to any answer *)

Section Passwords.

Variable str_lower : string -> string.

Local Notation "'related'" :=
  (Forall2 (fun kv1 kv2 : Z * Users.UserRecord =>
              fst kv1 = fst kv2 /\ Users.view (snd kv1) = Users.view (snd kv2))).

Lemma view_email u1 u2 :
  Users.view u1 = Users.view u2 -> Users.rec_email u1 = Users.rec_email u2.
Proof. unfold Users.view. now intros [= _ -> _]. Qed.

Lemma related_email_taken e d1 d2 :
  related d1 d2 ->
  Users.email_taken str_lower e (Dict.values d1)
  = Users.email_taken str_lower e (Dict.values d2).
Proof.
  induction 1 as [|[k1 u1] [k2 u2] d1 d2 [_ Hv] Hd IH]; simpl in *; auto.
  now rewrite (view_email _ _ Hv), IH.
Qed.

Lemma related_views d1 d2 :
  related d1 d2 ->
  map Users.view (Dict.values d1) = map Users.view (Dict.values d2).
Proof.
  induction 1 as [|[k1 u1] [k2 u2] d1 d2 [_ Hv] Hd IH]; simpl in *; congruence.
Qed.

Lemma related_get i d1 d2 :
  related d1 d2 ->
  match Dict.get i d1, Dict.get i d2 with
  | Some u1, Some u2 => Users.view u1 = Users.view u2
  | None, None => True
  | _, _ => False
  end.
Proof.
  induction 1 as [|[k1 u1] [k2 u2] d1 d2 [Hk Hv] Hd IH]; simpl in *; auto.
  subst k2. destruct (i =? k1); auto.
Qed.

Lemma related_set i u1 u2 d1 d2 :
  related d1 d2 -> Users.view u1 = Users.view u2 ->
  related (Dict.set i u1 d1) (Dict.set i u2 d2).
Proof.
  intros H Hv.
  induction H as [|[k1 w1] [k2 w2] d1 d2 [Hk Hw] Hd IH]; simpl in *.
  - constructor; auto.
  - subst k2. destruct (i =? k1); constructor; auto.
Qed.

Lemma related_del i d1 d2 : related d1 d2 -> related (Dict.del i d1) (Dict.del i d2).
Proof.
  induction 1 as [|[k1 w1] [k2 w2] d1 d2 [Hk Hw] Hd IH]; simpl in *; auto.
  subst k2. destruct (i =? k1); auto.
Qed.

Lemma view_apply_update p u1 u2 :
  Users.view u1 = Users.view u2 ->
  Users.view (Users.apply_update p u1) = Users.view (Users.apply_update p u2).
Proof.
  destruct u1, u2, p as [[n|] [w|]]; unfold Users.view, Users.apply_update; simpl;
    intros [= -> -> ->]; reflexivity.
Qed.

(** One call: the same answer, and states that still differ in passwords
    only. *)
Lemma step_same_but_passwords c st1 st2 :
  same_but_passwords st1 st2 ->
  fst (Users.step str_lower c st1) = fst (Users.step str_lower c st2) /\
  same_but_passwords (snd (Users.step str_lower c st1))
                     (snd (Users.step str_lower c st2)).
Proof.
  intros [Hn Hd]. destruct c as [p| |i|i p|i]; simpl.
  - unfold Users.create_user.
    rewrite (related_email_taken _ _ _ Hd).
    destruct (Users.email_taken _ _ _); simpl.
    + split; [reflexivity|split; assumption].
    + rewrite Hn. split; [reflexivity|].
      split; simpl; [congruence|]. now apply related_set.
  - rewrite (related_views _ _ Hd). split; [reflexivity|split; assumption].
  - unfold Users.get_user.
    pose proof (related_get i _ _ Hd) as Hg.
    destruct (Dict.get i (Users._IN_MEMORY_USERS st1)),
      (Dict.get i (Users._IN_MEMORY_USERS st2)); simpl; try contradiction.
    + rewrite Hg. split; [reflexivity|split; assumption].
    + split; [reflexivity|split; assumption].
  - unfold Users.update_user.
    pose proof (related_get i _ _ Hd) as Hg.
    destruct (Dict.get i (Users._IN_MEMORY_USERS st1)) as [u1|],
      (Dict.get i (Users._IN_MEMORY_USERS st2)) as [u2|]; simpl; try contradiction.
    + pose proof (view_apply_update p _ _ Hg) as Hv. rewrite Hv.
      split; [reflexivity|]. split; simpl; auto using related_set.
    + split; [reflexivity|split; assumption].
  - unfold Users.delete_user, Dict.contains.
    pose proof (related_get i _ _ Hd) as Hg.
    destruct (Dict.get i (Users._IN_MEMORY_USERS st1)),
      (Dict.get i (Users._IN_MEMORY_USERS st2)); simpl; try contradiction.
    + split; [reflexivity|]. split; simpl; auto using related_del.
    + split; [reflexivity|split; assumption].
Qed.

Lemma run_same_but_passwords cs st1 st2 :
  same_but_passwords st1 st2 ->
  answers (fst (Users.run str_lower cs st1))
  = answers (fst (Users.run str_lower cs st2)).
Proof.
  revert st1 st2. induction cs as [|c cs IH]; intros st1 st2 H; simpl; auto.
  destruct (step_same_but_passwords c _ _ H) as [Hr Hs].
  destruct (Users.step str_lower c st1) as [r1 s1],
    (Users.step str_lower c st2) as [r2 s2]; simpl in *.
  specialize (IH _ _ Hs).
  destruct (Users.run str_lower cs s1) as [t1 f1],
    (Users.run str_lower cs s2) as [t2 f2]; simpl in *.
  unfold answers in *. simpl. congruence.
Qed.

Lemma related_refl (d : dict Users.UserRecord) : related d d.
Proof. induction d; constructor; auto. Qed.

(** Overwriting the password of one stored user gives a state that differs
    in stored passwords only. *)
Lemma change_password_same_but_passwords st i u w :
  Dict.get i (Users._IN_MEMORY_USERS st) = Some u ->
  same_but_passwords st
    (Users.mkState
       (Dict.set i (Users.mkUserRecord (Users.rec_id u) (Users.rec_email u)
                      (Users.rec_full_name u) w)
                 (Users._IN_MEMORY_USERS st))
       (Users._NEXT_ID st)).
Proof.
  intros Hget. split; [reflexivity|]. simpl.
  rewrite <- (set_get_same _ _ _ Hget) at 1.
  apply related_set; [apply related_refl|reflexivity].
Qed.

End Passwords.

(** ** The properties of the registries *)

(** C1. In each registry, starting from the loaded module and for every
    sequence of calls, each successful create returns an identifier above
    all the identifiers issued before it, so the issued identifiers are
    pairwise distinct; and after a successful delete of an identifier, no
    later create returns it and no later list result contains it. *)
Theorem C1_identifiers_fresh :
  (forall (str_lower : string -> string) (cs : list Users.call),
      fresh_identifiers
        (map user_event (fst (Users.run str_lower cs Users.init)))) /\
  (forall (Any : Type) (cs : list (Entities.call Any)),
      fresh_identifiers
        (map entity_event (fst (Entities.run Any cs Entities.init)))).
Proof.
  split.
  - intros. apply users_fresh.
  - intros. apply entities_fresh.
Qed.

Lemma C1_identifiers_fresh_witness :
  let ucs := [Users.CreateUser (Users.mkUserCreate "a@x.com" None "secret1");
              Users.CreateUser (Users.mkUserCreate "b@x.com" None "secret2");
              Users.DeleteUser 1;
              Users.CreateUser (Users.mkUserCreate "a@x.com" None "secret3");
              Users.ListUsers] in
  let ecs := [Entities.CreateEntity (Entities.mkEntityCreate "Widget" None (Some [("a", 1)]));
              Entities.DeleteEntity 1;
              Entities.CreateEntity (Entities.mkEntityCreate "Gadget" None None);
              Entities.ListEntities] in
  (map user_event (fst (Users.run latin1_lower ucs Users.init))
   = [Issued 1; Issued 2] ++ Deleted 1 :: [Issued 3; Listed [2; 3]] /\
   StronglySorted Z.lt [1; 2; 3] /\
   ~ In 1 (issued [Issued 3; Listed [2; 3]]) /\
   ~ In 1 [2; 3]) /\
  (map entity_event (fst (Entities.run Z ecs Entities.init))
   = [Issued 1] ++ Deleted 1 :: [Issued 2; Listed [2]] /\
   StronglySorted Z.lt [1; 2] /\
   ~ In 1 (issued [Issued 2; Listed [2]]) /\
   ~ In 1 [2]).
Proof.
  intros ucs ecs.
  destruct C1_identifiers_fresh as [Hu He].
  split.
  - destruct (Hu latin1_lower ucs) as (Hsorted & _ & Hdel).
    assert (Heq : map user_event (fst (Users.run latin1_lower ucs Users.init))
                  = [Issued 1; Issued 2] ++ Deleted 1 :: [Issued 3; Listed [2; 3]])
      by reflexivity.
    destruct (Hdel _ _ _ Heq) as [H1 H2].
    split; [exact Heq|]. split; [exact Hsorted|].
    split; [exact H1 | apply H2; simpl; auto].
  - destruct (He Z ecs) as (Hsorted & _ & Hdel).
    assert (Heq : map entity_event (fst (Entities.run Z ecs Entities.init))
                  = [Issued 1] ++ Deleted 1 :: [Issued 2; Listed [2]])
      by reflexivity.
    destruct (Hdel _ _ _ Heq) as [H1 H2].
    split; [exact Heq|]. split; [exact Hsorted|].
    split; [exact H1 | apply H2; simpl; auto].
Defined.

Lemma email_taken_true str_lower e us u :
  In u us -> str_lower (Users.rec_email u) = str_lower e ->
  Users.email_taken str_lower e us = true.
Proof.
  intros Hin Heq. induction us as [|u' us IH]; simpl; [contradiction|].
  destruct (String.eqb _ _) eqn:E; auto.
  destruct Hin as [->|Hin]; auto.
  rewrite Heq, String.eqb_refl in E. discriminate.
Qed.

(** C2. Whatever the registry holds, creating a user whose email is equal,
    after lower-casing, to the email of a stored user raises the 409
    conflict and returns the registry as it was: same records, same
    counter. *)
Theorem C2_duplicate_email_conflict
  (str_lower : string -> string) (st : Users.state)
  (payload : Users.UserCreate) (u : Users.UserRecord) :
  In u (Dict.values (Users._IN_MEMORY_USERS st)) ->
  str_lower (Users.rec_email u) = str_lower (Users.uc_email payload) ->
  Users.create_user str_lower payload st
  = (HTTPException 409 "Email already registered.", st).
Proof.
  intros Hin Heq. unfold Users.create_user.
  now rewrite (email_taken_true _ _ _ _ Hin Heq).
Qed.

Lemma C2_duplicate_email_conflict_witness :
  let u := Users.mkUserRecord 1 "a@x.com" None "secret1" in
  let st := Users.mkState [(1, u)] 2 in
  Users.create_user latin1_lower (Users.mkUserCreate "A@X.com" None "other1") st
  = (HTTPException 409 "Email already registered.", st).
Proof.
  intros u st.
  apply (C2_duplicate_email_conflict latin1_lower st _ u).
  - simpl. auto.
  - reflexivity.
Defined.

(** C3. For an identifier that is not in the registry, get, update (with
    any payload) and delete raise the 404 of the registry and return the
    state as it was, in the user registry and in the entity registry. *)
Theorem C3_unknown_identifier_not_found :
  (forall (st : Users.state) (i : Z),
      Dict.get i (Users._IN_MEMORY_USERS st) = None ->
      Users.get_user i st = (HTTPException 404 "User not found.", st) /\
      (forall p, Users.update_user i p st = (HTTPException 404 "User not found.", st)) /\
      Users.delete_user i st = (HTTPException 404 "User not found.", st)) /\
  (forall (Any : Type) (st : Entities.state Any) (i : Z),
      Dict.get i (Entities._ENTITIES st) = None ->
      Entities.get_entity Any i st = (HTTPException 404 "Entity not found.", st) /\
      (forall p, Entities.update_entity Any i p st
                 = (HTTPException 404 "Entity not found.", st)) /\
      Entities.delete_entity Any i st = (HTTPException 404 "Entity not found.", st)).
Proof.
  split.
  - intros st i H.
    unfold Users.get_user, Users.update_user, Users.delete_user.
    rewrite H, (contains_get_none _ _ H). auto.
  - intros Any st i H.
    unfold Entities.get_entity, Entities.update_entity, Entities.delete_entity.
    rewrite H, (contains_get_none _ _ H). auto.
Qed.

Lemma C3_unknown_identifier_not_found_witness :
  let ust := Users.mkState [(1, Users.mkUserRecord 1 "a@x.com" None "secret1")] 2 in
  let est := Entities.mkState [(1, Entities.mkEntityRecord 1 "Widget" None [("a", 1)])] 2 in
  (Users.get_user 7 ust = (HTTPException 404 "User not found.", ust) /\
   Users.update_user 7 (Users.mkUserUpdate (Some "Ann") None) ust
   = (HTTPException 404 "User not found.", ust) /\
   Users.delete_user 7 ust = (HTTPException 404 "User not found.", ust)) /\
  (Entities.get_entity Z 7 est = (HTTPException 404 "Entity not found.", est) /\
   Entities.update_entity Z 7 (Entities.mkEntityUpdate (Some "Gadget") None None) est
   = (HTTPException 404 "Entity not found.", est) /\
   Entities.delete_entity Z 7 est = (HTTPException 404 "Entity not found.", est)).
Proof.
  intros ust est.
  destruct C3_unknown_identifier_not_found as [Hu He].
  split.
  - destruct (Hu ust 7 eq_refl) as (Hg & Hp & Hd).
    split; [exact Hg|]. split; [apply Hp | exact Hd].
  - destruct (He Z est 7 eq_refl) as (Hg & Hp & Hd).
    split; [exact Hg|]. split; [apply Hp | exact Hd].
Defined.

Lemma apply_update_metadata {Any} (p : Entities.EntityUpdate Any) e m :
  Entities.eu_metadata p = Some m ->
  Entities.rec_metadata (Entities.apply_update Any p e) = m.
Proof.
  unfold Entities.apply_update. intros ->. reflexivity.
Qed.

Lemma apply_update_name {Any} (p : Entities.EntityUpdate Any) e :
  Entities.rec_name (Entities.apply_update Any p e)
  = match Entities.eu_name p with Some n => n | None => Entities.rec_name e end.
Proof.
  unfold Entities.apply_update.
  destruct (Entities.eu_name p), (Entities.eu_description p),
    (Entities.eu_metadata p); reflexivity.
Qed.

Lemma Entity_of_metadata {Any} (e : Entities.EntityRecord Any) v :
  Entities.Entity_of Any e = Some v -> Entities.metadata v = Entities.rec_metadata e.
Proof.
  unfold Entities.Entity_of. destruct (min_length_ok _ _); [|discriminate].
  now intros [= <-].
Qed.

(** C4. For an entity that is in the registry and an update that provides a
    metadata map [m], the metadata stored after the call is [m] itself,
    whatever was stored before; every record the call returns carries [m];
    and the call does return a record when the name the entity ends up with
    is not empty. *)
Theorem C4_metadata_replaced_wholesale
  (Any : Type) (st : Entities.state Any) (i : Z)
  (e : Entities.EntityRecord Any) (p : Entities.EntityUpdate Any)
  (m : Entities.Metadata Any) :
  Dict.get i (Entities._ENTITIES st) = Some e ->
  Entities.eu_metadata p = Some m ->
  let r := Entities.update_entity Any i p st in
  (exists e', Dict.get i (Entities._ENTITIES (snd r)) = Some e' /\
              Entities.rec_metadata e' = m) /\
  (forall v, fst r = Ok v -> Entities.metadata v = m) /\
  (min_length_ok 1 (match Entities.eu_name p with
                    | Some n => n
                    | None => Entities.rec_name e
                    end) = true ->
   exists v, fst r = Ok v /\ Entities.metadata v = m).
Proof.
  intros Hget Hm r. subst r. unfold Entities.update_entity. rewrite Hget. simpl.
  pose proof (apply_update_metadata p e m Hm) as Hmeta.
  split; [|split].
  - eexists. split; [apply get_set_same|assumption].
  - intros v Hv.
    destruct (Entities.Entity_of Any (Entities.apply_update Any p e)) as [w|] eqn:E;
      simpl in Hv; [|discriminate].
    injection Hv as <-. rewrite (Entity_of_metadata _ _ E). assumption.
  - intros Hname. unfold Entities.Entity_of.
    rewrite apply_update_name, Hname. simpl.
    eexists. split; [reflexivity|]. simpl. assumption.
Qed.

Lemma C4_metadata_replaced_wholesale_witness :
  let e := Entities.mkEntityRecord 1 "Widget" None [("a", 1)] in
  let st := Entities.mkState [(1, e)] 2 in
  let p := Entities.mkEntityUpdate None None (Some [("b", 2)]) in
  let r := Entities.update_entity Z 1 p st in
  (exists e', Dict.get 1 (Entities._ENTITIES (snd r)) = Some e' /\
              Entities.rec_metadata e' = [("b", 2)]) /\
  (exists v, fst r = Ok v /\ Entities.metadata v = [("b", 2)]).
Proof.
  intros e st p r.
  destruct (C4_metadata_replaced_wholesale Z st 1 e p [("b", 2)] eq_refl eq_refl)
    as (Hstored & _ & Hreturned).
  split; [exact Hstored | apply Hreturned; reflexivity].
Defined.

(** C5. The name of a stored entity can become empty: after an entity named
    ["Widget"] has been created, the update whose body is [{"name": ""}]
    passes the validation of [EntityUpdate], stores the empty name and then
    fails to build its response; from then on get and list fail as well.
    An empty name is rejected on create. *)
Theorem C5_update_stores_empty_name (Any : Type) :
  let create := Entities.mkEntityCreateBody (Any := Any) (Given "Widget") Absent Absent in
  let st1 := snd (Entities.post_entities Any create Entities.init) in
  let patch := Entities.mkEntityUpdateBody (Any := Any) (Given "") Absent Absent in
  let st2 := snd (Entities.patch_entities Any 1 patch st1) in
  fst (Entities.post_entities Any create Entities.init)
  = Ok (Entities.mkEntity 1 "Widget" None []) /\
  fst (Entities.patch_entities Any 1 patch st1) = ResponseModelError /\
  Dict.get 1 (Entities._ENTITIES st2)
  = Some (Entities.mkEntityRecord 1 "" None []) /\
  fst (Entities.get_entity Any 1 st2) = ResponseModelError /\
  fst (Entities.list_entities Any st2) = ResponseModelError /\
  Entities.post_entities Any
    (Entities.mkEntityCreateBody (Given "") Absent Absent) st1
  = (RequestValidationError, st1).
Proof.
  repeat split.
Qed.

(** C6. The model returned by the user registry has the fields [id],
    [email] and [full_name] and no other; and two registry states that
    differ in stored passwords only give the same answers to every sequence
    of calls, create, list, get, update and delete alike. *)
Theorem C6_passwords_never_returned
  (str_lower : string -> string) (st1 st2 : Users.state) (cs : list Users.call) :
  same_but_passwords st1 st2 ->
  answers (fst (Users.run str_lower cs st1))
  = answers (fst (Users.run str_lower cs st2)).
Proof.
  apply run_same_but_passwords.
Qed.

Lemma C6_passwords_never_returned_witness :
  let st1 := Users.mkState [(1, Users.mkUserRecord 1 "a@x.com" (Some "Ann") "secret1");
                            (2, Users.mkUserRecord 2 "b@x.com" None "secret2")] 3 in
  let st2 := Users.mkState [(1, Users.mkUserRecord 1 "a@x.com" (Some "Ann") "hunter22");
                            (2, Users.mkUserRecord 2 "b@x.com" None "secret2")] 3 in
  let cs := [Users.GetUser 1; Users.ListUsers;
             Users.UpdateUser 1 (Users.mkUserUpdate (Some "Anna") None);
             Users.CreateUser (Users.mkUserCreate "c@x.com" None "secret3");
             Users.ListUsers; Users.DeleteUser 1; Users.GetUser 1] in
  answers (fst (Users.run latin1_lower cs st1))
  = answers (fst (Users.run latin1_lower cs st2)).
Proof.
  intros st1 st2 cs.
  apply (C6_passwords_never_returned latin1_lower st1 st2 cs).
  split; [reflexivity|].
  repeat constructor.
Defined.

Lemma optional_str_unconstrained (f : field string) :
  optional_str 0 f = Some (match f with Given s => Some s | Absent | Null => None end).
Proof. destruct f; reflexivity. Qed.

Lemma required_str_short n pw :
  (String.length pw < n)%nat -> required_str n (Given pw) = None.
Proof.
  intros H. unfold required_str, min_length_ok.
  destruct (Nat.leb_spec n (String.length pw)); [lia|reflexivity].
Qed.

Lemma required_str_length n f s :
  required_str n f = Some s -> (n <= String.length s)%nat.
Proof.
  destruct f as [| |s']; simpl; try discriminate.
  unfold min_length_ok.
  destruct (Nat.leb_spec n (String.length s')); [|discriminate].
  now intros [= <-].
Qed.

Lemma optional_str_short n pw :
  (String.length pw < n)%nat -> optional_str n (Given pw) = None.
Proof.
  intros H. unfold optional_str, min_length_ok.
  destruct (Nat.leb_spec n (String.length pw)); [lia|reflexivity].
Qed.

Lemma optional_str_long n pw :
  (n <= String.length pw)%nat -> optional_str n (Given pw) = Some (Some pw).
Proof.
  intros H. unfold optional_str, min_length_ok.
  destruct (Nat.leb_spec n (String.length pw)); [reflexivity|lia].
Qed.

Lemma user_apply_update_password p u :
  Users.rec_password (Users.apply_update p u)
  = match Users.uu_password p with Some w => w | None => Users.rec_password u end.
Proof.
  unfold Users.apply_update.
  destruct (Users.uu_full_name p), (Users.uu_password p); reflexivity.
Qed.

(** C7, as stated, fails for the empty password: an update whose password
    is the empty string is not taken to mean that the password stays as it
    is; the request is rejected with the validation error, as for any other
    password shorter than 6 characters. *)
Lemma C7_empty_password_rejected :
  let u := Users.mkUserRecord 1 "a@x.com" None "secret1" in
  let st := Users.mkState [(1, u)] 2 in
  let b := Users.mkUserUpdateBody Absent (Given "") in
  Users.parse_UserUpdate b = None /\
  fst (Users.patch_users 1 b st) = RequestValidationError /\
  ~ (exists v, fst (Users.patch_users 1 b st) = Ok v).
Proof.
  split; [reflexivity|]. split; [reflexivity|].
  intros [v Hv]. discriminate Hv.
Qed.

(** C7, amended. A create request is accepted only with a password of at
    least 6 characters, and one with a shorter password is rejected with the
    validation error, the registry untouched.  On update, a password that is
    omitted or [null] leaves the stored password as it is; a password that
    is given and shorter than 6 characters, the empty string included, is
    rejected with the validation error and the registry is untouched; a
    password that is given with 6 characters or more is stored. *)
Theorem C7_password_length
  (str_lower : string -> string) (EmailStr : string -> option string) :
  (forall b p, Users.parse_UserCreate EmailStr b = Some p ->
               (6 <= String.length (Users.uc_password p))%nat) /\
  (forall b st pw,
      Users.ucb_password b = Given pw -> (String.length pw < 6)%nat ->
      Users.post_users str_lower EmailStr b st = (RequestValidationError, st)) /\
  (forall i b st u,
      Users.uub_password b = Absent \/ Users.uub_password b = Null ->
      Dict.get i (Users._IN_MEMORY_USERS st) = Some u ->
      (exists v, fst (Users.patch_users i b st) = Ok v) /\
      exists u', Dict.get i (Users._IN_MEMORY_USERS (snd (Users.patch_users i b st)))
                 = Some u' /\
                 Users.rec_password u' = Users.rec_password u) /\
  (forall i b st,
      Users.uub_password b = Given "" ->
      Users.patch_users i b st = (RequestValidationError, st)) /\
  (forall i b st pw,
      Users.uub_password b = Given pw -> (String.length pw < 6)%nat ->
      Users.patch_users i b st = (RequestValidationError, st)) /\
  (forall i b st u pw,
      Users.uub_password b = Given pw -> (6 <= String.length pw)%nat ->
      Dict.get i (Users._IN_MEMORY_USERS st) = Some u ->
      (exists v, fst (Users.patch_users i b st) = Ok v) /\
      exists u', Dict.get i (Users._IN_MEMORY_USERS (snd (Users.patch_users i b st)))
                 = Some u' /\
                 Users.rec_password u' = pw).
Proof.
  assert (Hshort : forall i b st pw,
      Users.uub_password b = Given pw -> (String.length pw < 6)%nat ->
      Users.patch_users i b st = (RequestValidationError, st)).
  { intros i b st pw Hb Hlen.
    unfold Users.patch_users, Users.parse_UserUpdate.
    rewrite optional_str_unconstrained, Hb, optional_str_short by assumption.
    reflexivity. }
  split; [|split; [|split; [|split; [|split]]]].
  - intros b p. unfold Users.parse_UserCreate, obind.
    destruct (required_str 0 (Users.ucb_email b)); [|discriminate].
    destruct (EmailStr s); [|discriminate].
    destruct (optional_str 0 (Users.ucb_full_name b)); [|discriminate].
    destruct (required_str 6 (Users.ucb_password b)) as [w|] eqn:E; [|discriminate].
    intros [= <-]. simpl. eapply required_str_length; eauto.
  - intros b st pw Hb Hlen.
    unfold Users.post_users, Users.parse_UserCreate, obind.
    rewrite Hb, required_str_short by assumption.
    destruct (required_str 0 (Users.ucb_email b)); [|reflexivity].
    destruct (EmailStr s); [|reflexivity].
    destruct (optional_str 0 (Users.ucb_full_name b)); reflexivity.
  - intros i b st u Hb Hget.
    unfold Users.patch_users, Users.parse_UserUpdate, Users.update_user.
    rewrite optional_str_unconstrained.
    assert (Hp : optional_str 6 (Users.uub_password b) = Some None)
      by (destruct Hb as [-> | ->]; reflexivity).
    rewrite Hp. simpl. rewrite Hget. simpl.
    split; [eexists; reflexivity|].
    eexists. split; [apply get_set_same|].
    now rewrite user_apply_update_password.
  - intros i b st Hb. apply (Hshort i b st "" Hb). simpl. lia.
  - exact Hshort.
  - intros i b st u pw Hb Hlen Hget.
    unfold Users.patch_users, Users.parse_UserUpdate, Users.update_user.
    rewrite optional_str_unconstrained, Hb, optional_str_long by assumption.
    simpl. rewrite Hget. simpl.
    split; [eexists; reflexivity|].
    eexists. split; [apply get_set_same|].
    now rewrite user_apply_update_password.
Qed.

Lemma C7_password_length_witness :
  let accept_all := fun s : string => Some s in
  let u := Users.mkUserRecord 1 "a@x.com" None "secret1" in
  let st := Users.mkState [(1, u)] 2 in
  Users.post_users latin1_lower accept_all
    (Users.mkUserCreateBody (Given "b@x.com") Absent (Given "abc")) st
  = (RequestValidationError, st) /\
  (exists u', Dict.get 1 (Users._IN_MEMORY_USERS
                            (snd (Users.patch_users 1
                                    (Users.mkUserUpdateBody (Given "Ann") Null) st)))
              = Some u' /\ Users.rec_password u' = "secret1") /\
  Users.patch_users 1 (Users.mkUserUpdateBody Absent (Given "")) st
  = (RequestValidationError, st) /\
  Users.patch_users 1 (Users.mkUserUpdateBody Absent (Given "abcde")) st
  = (RequestValidationError, st) /\
  (exists u', Dict.get 1 (Users._IN_MEMORY_USERS
                            (snd (Users.patch_users 1
                                    (Users.mkUserUpdateBody Absent (Given "secret2")) st)))
              = Some u' /\ Users.rec_password u' = "secret2").
Proof.
  intros accept_all u st.
  destruct (C7_password_length latin1_lower accept_all)
    as (_ & Hcreate & Hkeep & Hempty & Hshort & Hlong).
  split; [|split; [|split; [|split]]].
  - apply (Hcreate _ st "abc"); [reflexivity|simpl; lia].
  - apply (Hkeep 1 _ st u); [right; reflexivity|reflexivity].
  - apply Hempty. reflexivity.
  - apply (Hshort 1 _ st "abcde"); [reflexivity|simpl; lia].
  - apply (Hlong 1 _ st u "secret2"); [reflexivity|simpl; lia|reflexivity].
Defined.

(** An update of a user with nothing in it changes nothing and returns the
    record as it is. *)
Lemma update_user_nothing st i u :
  Dict.get i (Users._IN_MEMORY_USERS st) = Some u ->
  Users.update_user i (Users.mkUserUpdate None None) st = (Ok (Users.view u), st).
Proof.
  intros Hget. unfold Users.update_user. rewrite Hget.
  change (Users.apply_update (Users.mkUserUpdate None None) u) with u.
  rewrite (set_get_same _ _ _ Hget). now destruct st.
Qed.

(** An update of an entity with nothing in it changes nothing either, and
    answers what get answers: the record, if a model can be built from it. *)
Lemma update_entity_nothing {Any} (st : Entities.state Any) i e :
  Dict.get i (Entities._ENTITIES st) = Some e ->
  Entities.update_entity Any i (Entities.mkEntityUpdate None None None) st
  = (Entities.construct (Entities.Entity_of Any e), st) /\
  Entities.update_entity Any i (Entities.mkEntityUpdate None None None) st
  = Entities.get_entity Any i st.
Proof.
  intros Hget. unfold Entities.update_entity, Entities.get_entity. rewrite Hget.
  change (Entities.apply_update Any (Entities.mkEntityUpdate None None None) e) with e.
  rewrite (set_get_same _ _ _ Hget). now destruct st.
Qed.

Lemma update_entity_nothing_named {Any} (st : Entities.state Any) i e :
  Dict.get i (Entities._ENTITIES st) = Some e ->
  min_length_ok 1 (Entities.rec_name e) = true ->
  Entities.update_entity Any i (Entities.mkEntityUpdate None None None) st
  = (Ok (Entities.mkEntity (Entities.rec_id e) (Entities.rec_name e)
           (Entities.rec_description e) (Entities.rec_metadata e)), st).
Proof.
  intros Hget Hname.
  destruct (update_entity_nothing st i e Hget) as [-> _].
  unfold Entities.Entity_of. now rewrite Hname.
Qed.

(** C8. An update with nothing in it does not always return the record: an
    entity named ["Widget"] is created, its name is set to the empty string
    by an update, and a second update with an empty body follows.  The
    second update leaves the registry as it is, but answers with the failure
    to build the response and not with the record. *)
Theorem C8_empty_update_after_empty_name (Any : Type) :
  let create := Entities.mkEntityCreateBody (Any := Any) (Given "Widget") Absent Absent in
  let st1 := snd (Entities.post_entities Any create Entities.init) in
  let rename := Entities.mkEntityUpdateBody (Any := Any) (Given "") Absent Absent in
  let st2 := snd (Entities.patch_entities Any 1 rename st1) in
  let nothing := Entities.mkEntityUpdateBody (Any := Any) Absent Absent Absent in
  Dict.get 1 (Entities._ENTITIES st2)
  = Some (Entities.mkEntityRecord 1 "" None []) /\
  Entities.patch_entities Any 1 nothing st2 = (ResponseModelError, st2).
Proof.
  split; reflexivity.
Qed.

(** C9. An update of a user that is in the registry leaves the counter, the
    keys of the registry and every other user's record as they are, and the
    record of that user keeps its id and its email; its full name and its
    password are the payload's where the payload has one and the old ones
    where it has none. *)
Theorem C9_update_user_frame
  (st : Users.state) (i : Z) (p : Users.UserUpdate) (u : Users.UserRecord) :
  Dict.get i (Users._IN_MEMORY_USERS st) = Some u ->
  let st' := snd (Users.update_user i p st) in
  Users._NEXT_ID st' = Users._NEXT_ID st /\
  Dict.keys (Users._IN_MEMORY_USERS st') = Dict.keys (Users._IN_MEMORY_USERS st) /\
  (forall j, j <> i ->
             Dict.get j (Users._IN_MEMORY_USERS st')
             = Dict.get j (Users._IN_MEMORY_USERS st)) /\
  exists u',
    Dict.get i (Users._IN_MEMORY_USERS st') = Some u' /\
    Users.rec_id u' = Users.rec_id u /\
    Users.rec_email u' = Users.rec_email u /\
    Users.rec_full_name u'
    = match Users.uu_full_name p with
      | Some n => Some n
      | None => Users.rec_full_name u
      end /\
    Users.rec_password u'
    = match Users.uu_password p with
      | Some w => w
      | None => Users.rec_password u
      end.
Proof.
  intros Hget st'. subst st'. unfold Users.update_user. rewrite Hget. simpl.
  split; [reflexivity|]. split; [eapply keys_set_present; eauto|].
  split; [intros j Hj; now apply get_set_other|].
  eexists. split; [apply get_set_same|].
  rewrite user_apply_update_id, user_apply_update_email, user_apply_update_password.
  repeat split.
  unfold Users.apply_update.
  destruct (Users.uu_full_name p), (Users.uu_password p); reflexivity.
Qed.

Lemma C9_update_user_frame_witness :
  let u1 := Users.mkUserRecord 1 "a@x.com" None "secret1" in
  let u2 := Users.mkUserRecord 2 "b@x.com" (Some "Bob") "secret2" in
  let st := Users.mkState [(1, u1); (2, u2)] 3 in
  let st' := snd (Users.update_user 1 (Users.mkUserUpdate (Some "Ann") (Some "hunter22")) st) in
  Users._NEXT_ID st' = 3 /\
  Dict.get 2 (Users._IN_MEMORY_USERS st') = Some u2 /\
  exists u', Dict.get 1 (Users._IN_MEMORY_USERS st') = Some u' /\
             Users.rec_id u' = 1 /\ Users.rec_email u' = "a@x.com".
Proof.
  intros u1 u2 st st'.
  destruct (C9_update_user_frame st 1 (Users.mkUserUpdate (Some "Ann") (Some "hunter22"))
              u1 eq_refl) as (Hn & _ & Hothers & u' & Hget & Hid & Hemail & _).
  split; [exact Hn|]. split; [apply Hothers; lia|].
  exists u'. auto.
Defined.

(** C10. A create request for an entity that is accepted and whose metadata
    member is missing or [null] stores the empty map under the new
    identifier and returns a record with the empty map. *)
Theorem C10_metadata_defaults_to_empty
  (Any : Type) (b : Entities.EntityCreateBody Any) (st : Entities.state Any)
  (p : Entities.EntityCreate Any) :
  Entities.parse_EntityCreate Any b = Some p ->
  Entities.ecb_metadata b = Absent \/ Entities.ecb_metadata b = Null ->
  let r := Entities.post_entities Any b st in
  let eid := Entities._ENTITIES_NEXT_ID st in
  fst r = Ok (Entities.mkEntity eid (Entities.ec_name p) (Entities.ec_description p) []) /\
  Dict.get eid (Entities._ENTITIES (snd r))
  = Some (Entities.mkEntityRecord eid (Entities.ec_name p) (Entities.ec_description p) []).
Proof.
  intros Hparse Hmeta r eid. subst r eid.
  unfold Entities.post_entities. rewrite Hparse.
  unfold Entities.parse_EntityCreate, obind in Hparse.
  destruct (required_str 1 (Entities.ecb_name b)) as [n|] eqn:En; [|discriminate].
  destruct (optional_str 0 (Entities.ecb_description b)) as [d|]; [|discriminate].
  injection Hparse as <-.
  assert (Hlen : min_length_ok 1 n = true).
  { destruct (Entities.ecb_name b) as [| |s]; simpl in En; try discriminate.
    destruct (min_length_ok 1 s) eqn:E; [|discriminate]. now injection En as <-. }
  assert (Hm : Entities.metadata_or_empty Any
                 (Entities.metadata_default_dict Any (Entities.ecb_metadata b)) = []).
  { destruct Hmeta as [-> | ->]; reflexivity. }
  unfold Entities.create_entity, Entities.Entity_of. simpl.
  rewrite Hm, Hlen. simpl. split; [reflexivity|apply get_set_same].
Qed.

Lemma C10_metadata_defaults_to_empty_witness :
  let st := Entities.mkState [(1, Entities.mkEntityRecord 1 "Widget" None [("a", 1)])] 2 in
  let b := Entities.mkEntityCreateBody (Given "Gadget") Absent Null in
  fst (Entities.post_entities Z b st) = Ok (Entities.mkEntity 2 "Gadget" None []) /\
  Dict.get 2 (Entities._ENTITIES (snd (Entities.post_entities Z b st)))
  = Some (Entities.mkEntityRecord 2 "Gadget" None []).
Proof.
  intros st b.
  apply (C10_metadata_defaults_to_empty Z b st
           (Entities.mkEntityCreate "Gadget" None None)).
  - reflexivity.
  - right. reflexivity.
Defined.

(** ** More facts about dictionaries *)

Section DictMore.

Context {V : Type}.
Implicit Types (d : dict V) (k j : Z) (v : V).

Lemma set_absent k v d : Dict.get k d = None -> Dict.set k v d = d ++ [(k, v)].
Proof.
  induction d as [|[k' w] d IH]; simpl; auto.
  destruct (k =? k'); [discriminate|].
  intros H. now rewrite IH.
Qed.

Lemma set_set k v v' d : Dict.set k v (Dict.set k v' d) = Dict.set k v d.
Proof.
  induction d as [|[k' w] d IH]; simpl.
  - now rewrite Z.eqb_refl.
  - destruct (k =? k') eqn:E; simpl.
    + now rewrite Z.eqb_refl.
    + now rewrite E, IH.
Qed.

Lemma del_filter k d : Dict.del k d = filter (fun kv => negb (k =? fst kv)) d.
Proof.
  induction d as [|[k' w] d IH]; simpl; auto.
  destruct (k =? k'); simpl; now rewrite IH.
Qed.

Lemma in_get k v d : NoDup (Dict.keys d) -> In (k, v) d -> Dict.get k d = Some v.
Proof.
  induction d as [|[k' w] d IH]; simpl; [tauto|].
  intros Hnd Hin. inversion Hnd as [|? ? Hnot Hnd']; subst.
  destruct Hin as [Heq|Hin].
  - injection Heq as -> ->. now rewrite Z.eqb_refl.
  - destruct (k =? k') eqn:E; auto.
    apply Z.eqb_eq in E. subst k'. exfalso. apply Hnot.
    change k with (fst (k, v)). now apply in_map.
Qed.

Lemma map_values_set_same {B} (f : V -> B) k v v' d :
  Dict.get k d = Some v' -> f v = f v' ->
  map f (Dict.values (Dict.set k v d)) = map f (Dict.values d).
Proof.
  unfold Dict.values.
  induction d as [|[k' w] d IH]; simpl; [discriminate|].
  destruct (k =? k'); simpl.
  - intros [= ->] Hf. now rewrite Hf.
  - intros H Hf. now rewrite IH.
Qed.

(** Dropping elements keeps the images of the remaining ones distinct. *)
Lemma distinct_images_filter {A B} (image : A -> B) (keep : A -> bool) :
  forall xs : list A,
    NoDup (map image xs) -> NoDup (map image (filter keep xs)).
Proof.
  intros xs. induction xs as [|x xs IH]; simpl; intros Hxs; [assumption|].
  apply NoDup_cons_iff in Hxs. destruct Hxs as [Hfresh Hrest].
  destruct (keep x); simpl; [|now apply IH].
  apply NoDup_cons_iff. split; [|now apply IH].
  intros Hin. apply Hfresh.
  apply in_map_iff in Hin. destruct Hin as (y & Hy & Hin).
  apply filter_In in Hin. apply in_map_iff. exists y. tauto.
Qed.

Lemma values_del_filter k d :
  Dict.values (Dict.del k d)
  = map snd (filter (fun kv => negb (k =? fst kv)) d).
Proof. unfold Dict.values. now rewrite del_filter. Qed.

End DictMore.

(** ** The user registry: invariants and how the calls compose *)

Section UsersMore.

Variable str_lower : string -> string.

Lemma email_taken_iff e us :
  Users.email_taken str_lower e us = true
  <-> In (str_lower e) (map (fun u => str_lower (Users.rec_email u)) us).
Proof.
  induction us as [|u us IH]; simpl; [split; [discriminate|tauto]|].
  destruct (String.eqb _ _) eqn:E.
  - apply String.eqb_eq in E. split; auto.
  - apply String.eqb_neq in E. rewrite IH. split; auto.
    intros [H|H]; [congruence|assumption].
Qed.

Lemma user_step_wf c st : user_wf st -> user_wf (snd (Users.step str_lower c st)).
Proof.
  intros (Hnd & Hk & Hone & Hb).
  assert (Hkeyed : user_keyed (snd (Users.step str_lower c st)))
    by now apply user_step_keyed.
  assert (Hsame : user_wf st) by (split; [|split; [|split]]; assumption).
  destruct c as [p| |i|i p|i]; simpl in *.
  - unfold Users.create_user in *.
    destruct (Users.email_taken _ _ _); simpl in *; [assumption|].
    split; [now apply NoDup_keys_set|]. split; [assumption|]. split; [simpl; lia|].
    simpl. intros k Hin. apply in_keys_set in Hin.
    destruct Hin as [->|Hin]; [lia|]. specialize (Hb k Hin). lia.
  - assumption.
  - unfold Users.get_user in *.
    destruct (Dict.get _ _); assumption.
  - unfold Users.update_user in *.
    destruct (Dict.get _ _) as [u|] eqn:E; simpl in *; [|assumption].
    split; [now apply NoDup_keys_set|]. split; [assumption|]. split; [simpl; lia|].
    simpl. intros k Hin. erewrite keys_set_present in Hin by eauto. auto.
  - unfold Users.delete_user in *.
    destruct (negb _); simpl in *; [assumption|].
    split; [now apply NoDup_keys_del|]. split; [assumption|]. split; [simpl; lia|].
    simpl. intros k Hin. apply in_keys_del in Hin. apply Hb. tauto.
Qed.

Lemma user_wf_fresh_key st :
  user_wf st -> Dict.get (Users._NEXT_ID st) (Users._IN_MEMORY_USERS st) = None.
Proof.
  intros (_ & _ & _ & Hb).
  destruct (Dict.get _ _) as [u|] eqn:E; auto.
  apply get_some_in_keys in E. specialize (Hb _ E). lia.
Qed.

Lemma user_step_emails c st :
  user_wf st -> NoDup (lowered_emails str_lower st) ->
  NoDup (lowered_emails str_lower (snd (Users.step str_lower c st))).
Proof.
  intros Hwf Hnd. unfold lowered_emails in *.
  destruct c as [p| |i|i p|i]; simpl.
  - unfold Users.create_user.
    destruct (Users.email_taken _ _ _) eqn:E; simpl; auto.
    rewrite set_absent by now apply user_wf_fresh_key.
    unfold Dict.values. rewrite map_app, map_app. simpl.
    apply NoDup_app; auto.
    + constructor; [intros []|constructor].
    + intros x Hx [<-|[]].
      assert (Ht : Users.email_taken str_lower (Users.uc_email p)
                     (Dict.values (Users._IN_MEMORY_USERS st)) = true)
        by now apply email_taken_iff.
      congruence.
  - assumption.
  - unfold Users.get_user. destruct (Dict.get _ _); assumption.
  - unfold Users.update_user.
    destruct (Dict.get _ _) as [u|] eqn:E; simpl; auto.
    erewrite map_values_set_same; eauto.
    now rewrite user_apply_update_email.
  - unfold Users.delete_user.
    destruct (negb _); simpl; auto.
    rewrite values_del_filter, map_map.
    unfold Dict.values in Hnd. rewrite map_map in Hnd.
    now apply distinct_images_filter.
Qed.

Lemma user_run_invariants cs st :
  user_wf st -> NoDup (lowered_emails str_lower st) ->
  user_wf (snd (Users.run str_lower cs st)) /\
  NoDup (lowered_emails str_lower (snd (Users.run str_lower cs st))).
Proof.
  revert st. induction cs as [|c cs IH]; intros st Hwf Hnd; simpl; auto.
  pose proof (user_step_wf c st Hwf) as Hwf1.
  pose proof (user_step_emails c st Hwf Hnd) as Hnd1.
  destruct (Users.step str_lower c st) as [r st1]; simpl in *.
  specialize (IH st1 Hwf1 Hnd1).
  destruct (Users.run str_lower cs st1) as [tr st2]; simpl in *. assumption.
Qed.

Lemma user_init_wf : user_wf Users.init.
Proof.
  split; [constructor|]. split; [constructor|]. split; [simpl; lia|].
  intros k [].
Qed.

End UsersMore.

(** X1. Whatever calls have been made since the module was loaded, the user
    registry is well formed: no key occurs twice, the ["id"] of each stored
    record is its key, the counter is at least 1 and every key lies between
    1 and the counter, the counter excluded. *)
Theorem users_always_well_formed
  (str_lower : string -> string) (cs : list Users.call) :
  user_wf (snd (Users.run str_lower cs Users.init)).
Proof.
  apply user_run_invariants; [apply user_init_wf|constructor].
Qed.

(** X2. Whatever calls have been made since the module was loaded, no two
    stored users have emails that are equal after lower-casing. *)
Theorem users_emails_always_distinct
  (str_lower : string -> string) (cs : list Users.call) :
  NoDup (lowered_emails str_lower (snd (Users.run str_lower cs Users.init))).
Proof.
  apply user_run_invariants; [apply user_init_wf|constructor].
Qed.


Lemma user_views_del i (d : dict Users.UserRecord) :
  Forall (fun kv => Users.rec_id (snd kv) = fst kv) d ->
  map Users.view (Dict.values (Dict.del i d))
  = filter (fun v => negb (Users.id v =? i)) (map Users.view (Dict.values d)).
Proof.
  unfold Dict.values.
  induction 1 as [|[k u] d Hk Hd IH]; simpl in *; auto.
  subst k. rewrite (Z.eqb_sym i).
  destruct (Users.rec_id u =? i); simpl; now rewrite IH.
Qed.

(** X3. In a well-formed registry, creating a user whose lower-cased email
    is not among the stored ones returns the user with the counter as its
    id, puts the record after all the others and moves the counter up by
    one; a get of the new id then returns the same user, and the list is
    the old list followed by it. *)
Theorem create_user_appends
  (str_lower : string -> string) (st : Users.state) (p : Users.UserCreate) :
  user_wf st ->
  ~ In (str_lower (Users.uc_email p)) (lowered_emails str_lower st) ->
  let nid := Users._NEXT_ID st in
  let v := Users.mkUser nid (Users.uc_email p) (Users.uc_full_name p) in
  let st' :=
    Users.mkState
      (Users._IN_MEMORY_USERS st
       ++ [(nid, Users.mkUserRecord nid (Users.uc_email p) (Users.uc_full_name p)
                   (Users.uc_password p))])
      (nid + 1) in
  Users.create_user str_lower p st = (Ok v, st') /\
  Users.get_user nid st' = (Ok v, st') /\
  Users.list_users st'
  = (Ok (map Users.view (Dict.values (Users._IN_MEMORY_USERS st)) ++ [v]), st').
Proof.
  intros Hwf Hfree nid v st'.
  pose proof (user_wf_fresh_key st Hwf) as Hkey. fold nid in Hkey.
  assert (Htaken : Users.email_taken str_lower (Users.uc_email p)
                     (Dict.values (Users._IN_MEMORY_USERS st)) = false).
  { destruct (Users.email_taken _ _ _) eqn:E; auto.
    apply email_taken_iff in E. contradiction. }
  split; [|split].
  - unfold Users.create_user. rewrite Htaken. simpl.
    now rewrite (set_absent _ _ _ Hkey).
  - unfold Users.get_user. subst st'. simpl.
    rewrite <- (set_absent _ _ _ Hkey), get_set_same. reflexivity.
  - unfold Users.list_users, Dict.values. subst st'. simpl.
    now rewrite !map_app.
Qed.

Lemma create_user_appends_witness :
  let st := Users.mkState [(1, Users.mkUserRecord 1 "a@x.com" None "secret1")] 2 in
  let p := Users.mkUserCreate "B@x.com" (Some "Bob") "secret2" in
  let v := Users.mkUser 2 "B@x.com" (Some "Bob") in
  let st' := Users.mkState [(1, Users.mkUserRecord 1 "a@x.com" None "secret1");
                            (2, Users.mkUserRecord 2 "B@x.com" (Some "Bob") "secret2")] 3 in
  Users.create_user latin1_lower p st = (Ok v, st') /\
  Users.get_user 2 st' = (Ok v, st') /\
  Users.list_users st' = (Ok [Users.mkUser 1 "a@x.com" None; v], st').
Proof.
  intros st p v st'.
  apply (create_user_appends latin1_lower st p).
  - split; [repeat constructor; simpl; tauto|].
    split; [repeat constructor|]. split; [simpl; lia|].
    simpl. intros k [<-|[]]. lia.
  - simpl. intros [H|[]]. discriminate H.
Defined.

(** X4. Deleting a user that is in a well-formed registry returns without
    content and leaves the counter alone; a get of that id then raises the
    404, a get of any other id answers as before, and the list is the old
    list without that user, the others in their order. *)
Theorem delete_user_removes
  (st : Users.state) (i : Z) (u : Users.UserRecord) :
  user_wf st ->
  Dict.get i (Users._IN_MEMORY_USERS st) = Some u ->
  let st' := snd (Users.delete_user i st) in
  fst (Users.delete_user i st) = Ok tt /\
  Users._NEXT_ID st' = Users._NEXT_ID st /\
  Users.get_user i st' = (HTTPException 404 "User not found.", st') /\
  (forall j, j <> i -> fst (Users.get_user j st') = fst (Users.get_user j st)) /\
  fst (Users.list_users st')
  = rmap (filter (fun v => negb (Users.id v =? i))) (fst (Users.list_users st)).
Proof.
  intros (_ & Hk & _) Hget st'. subst st'.
  unfold Users.delete_user, Dict.contains. rewrite Hget. simpl.
  split; [reflexivity|]. split; [reflexivity|].
  unfold Users.get_user. simpl. rewrite get_del_same.
  split; [reflexivity|]. split.
  - intros j Hj. rewrite (get_del_other _ _ _ Hj).
    now destruct (Dict.get j _).
  - f_equal. now apply user_views_del.
Qed.

Lemma delete_user_removes_witness :
  let u1 := Users.mkUserRecord 1 "a@x.com" None "secret1" in
  let u2 := Users.mkUserRecord 2 "b@x.com" (Some "Bob") "secret2" in
  let st := Users.mkState [(1, u1); (2, u2)] 3 in
  let st' := snd (Users.delete_user 1 st) in
  Users.get_user 1 st' = (HTTPException 404 "User not found.", st') /\
  fst (Users.list_users st') = Ok [Users.mkUser 2 "b@x.com" (Some "Bob")].
Proof.
  intros u1 u2 st st'.
  assert (Hwf : user_wf st).
  { split; [repeat constructor; simpl; intuition discriminate|].
    split; [repeat constructor|]. split; [simpl; lia|].
    simpl. intros k [<-|[<-|[]]]; lia. }
  destruct (delete_user_removes st 1 u1 Hwf eq_refl) as (_ & _ & Hg & _ & Hl).
  split; [exact Hg | exact Hl].
Defined.

(** X5. A call of the user registry that does not return a value (a 409, a
    404 or a rejected body) leaves the registry exactly as it was; this
    holds of the handlers and of the two routes that validate a body. *)
Theorem user_failure_changes_nothing
  (str_lower : string -> string) (EmailStr : string -> option string) :
  (forall c st,
      is_ok (fst (Users.step str_lower c st)) = false ->
      snd (Users.step str_lower c st) = st) /\
  (forall b st,
      is_ok (fst (Users.post_users str_lower EmailStr b st)) = false ->
      snd (Users.post_users str_lower EmailStr b st) = st) /\
  (forall i b st,
      is_ok (fst (Users.patch_users i b st)) = false ->
      snd (Users.patch_users i b st) = st).
Proof.
  assert (Hcreate : forall p st,
             is_ok (fst (Users.create_user str_lower p st)) = false ->
             snd (Users.create_user str_lower p st) = st).
  { intros p st. unfold Users.create_user.
    destruct (Users.email_taken _ _ _); simpl; [reflexivity|discriminate]. }
  assert (Hupdate : forall i p st,
             is_ok (fst (Users.update_user i p st)) = false ->
             snd (Users.update_user i p st) = st).
  { intros i p st. unfold Users.update_user.
    destruct (Dict.get _ _); simpl; [discriminate|reflexivity]. }
  split; [|split].
  - intros [p| |i|i p|i] st; simpl.
    + specialize (Hcreate p st).
      destruct (Users.create_user str_lower p st) as [[]]; simpl in *; auto.
    + reflexivity.
    + unfold Users.get_user. destruct (Dict.get _ _); reflexivity.
    + specialize (Hupdate i p st).
      destruct (Users.update_user i p st) as [[]]; simpl in *; auto.
    + unfold Users.delete_user.
      destruct (negb _); simpl; [reflexivity|discriminate].
  - intros b st. unfold Users.post_users.
    destruct (Users.parse_UserCreate _ _); [apply Hcreate|reflexivity].
  - intros i b st. unfold Users.patch_users.
    destruct (Users.parse_UserUpdate _); [apply Hupdate|reflexivity].
Qed.

Lemma user_failure_changes_nothing_witness :
  let st := Users.mkState [(1, Users.mkUserRecord 1 "a@x.com" None "secret1")] 2 in
  snd (Users.step latin1_lower
         (Users.CreateUser (Users.mkUserCreate "A@X.COM" None "secret2")) st) = st /\
  snd (Users.post_users latin1_lower (fun s => Some s)
         (Users.mkUserCreateBody (Given "b@x.com") Absent Null) st) = st /\
  snd (Users.patch_users 5 (Users.mkUserUpdateBody (Given "Ann") Absent) st) = st.
Proof.
  intros st.
  destruct (user_failure_changes_nothing latin1_lower (fun s => Some s))
    as (Hstep & Hpost & Hpatch).
  split; [|split].
  - apply Hstep. reflexivity.
  - apply Hpost. reflexivity.
  - apply Hpatch. reflexivity.
Defined.

Lemma user_apply_update_twice p u :
  Users.apply_update p (Users.apply_update p u) = Users.apply_update p u.
Proof.
  unfold Users.apply_update.
  destruct (Users.uu_full_name p), (Users.uu_password p); reflexivity.
Qed.

(** X6. Updating a user twice with the same payload is the same as doing it
    once: the second call gives the answer of the first and leaves the
    registry as the first left it, whether the user exists or not. *)
Theorem update_user_idempotent
  (i : Z) (p : Users.UserUpdate) (st : Users.state) :
  Users.update_user i p (snd (Users.update_user i p st))
  = Users.update_user i p st.
Proof.
  unfold Users.update_user.
  destruct (Dict.get i (Users._IN_MEMORY_USERS st)) as [u|] eqn:E; simpl.
  - rewrite get_set_same, user_apply_update_twice, set_set. reflexivity.
  - now rewrite E.
Qed.

(** X7. In a well-formed registry get and list agree: a get of [i] returns
    the user [v] exactly when [v] is in the list result and its id is
    [i]. *)
Theorem get_user_agrees_with_list
  (st : Users.state) (i : Z) (v : Users.User) (l : list Users.User) :
  user_wf st ->
  fst (Users.list_users st) = Ok l ->
  (fst (Users.get_user i st) = Ok v <-> In v l /\ Users.id v = i).
Proof.
  intros (Hnd & Hk & _) Hl. simpl in Hl. injection Hl as <-.
  unfold Users.get_user, Dict.values. rewrite map_map.
  split.
  - destruct (Dict.get i _) as [u|] eqn:E; simpl; [|discriminate].
    intros [= <-]. split.
    + apply in_map_iff. exists (i, u). split; auto. now apply get_some_in.
    + simpl. eapply user_keyed_get; eauto.
  - intros [Hin Hid]. apply in_map_iff in Hin.
    destruct Hin as ([k u] & Hv & Hin). simpl in Hv. subst v.
    unfold user_keyed in Hk. rewrite Forall_forall in Hk.
    pose proof (Hk _ Hin) as Hku. simpl in Hku, Hid.
    assert (Hki : k = i) by congruence. rewrite Hki in Hin.
    now rewrite (in_get _ _ _ Hnd Hin).
Qed.

Lemma get_user_agrees_with_list_witness :
  let st := Users.mkState [(1, Users.mkUserRecord 1 "a@x.com" None "secret1");
                           (2, Users.mkUserRecord 2 "b@x.com" (Some "Bob") "secret2")] 3 in
  let v := Users.mkUser 2 "b@x.com" (Some "Bob") in
  fst (Users.get_user 2 st) = Ok v <->
  In v [Users.mkUser 1 "a@x.com" None; v] /\ Users.id v = 2.
Proof.
  intros st v.
  apply (get_user_agrees_with_list st 2 v); [|reflexivity].
  split; [repeat constructor; simpl; intuition discriminate|].
  split; [repeat constructor|]. split; [simpl; lia|].
  simpl. intros k [<-|[<-|[]]]; lia.
Defined.



(** ** The entity registry: invariants and how the calls compose *)

Section EntitiesMore.

Context {Any : Type}.
Implicit Types (st : Entities.state Any) (e : Entities.EntityRecord Any).

Lemma entity_step_wf (c : Entities.call Any) st :
  entity_wf st -> entity_wf (snd (Entities.step Any c st)).
Proof.
  intros (Hnd & Hk & Hone & Hb).
  assert (Hkeyed : entity_keyed (snd (Entities.step Any c st)))
    by now apply entity_step_keyed.
  assert (Hsame : entity_wf st) by (split; [|split; [|split]]; assumption).
  destruct c as [p| |i|i p|i]; simpl in *.
  - split; [now apply NoDup_keys_set|]. split; [assumption|]. split; [simpl; lia|].
    simpl. intros k Hin. apply in_keys_set in Hin.
    destruct Hin as [->|Hin]; [lia|]. specialize (Hb k Hin). lia.
  - assumption.
  - unfold Entities.get_entity in *.
    destruct (Dict.get _ _); assumption.
  - unfold Entities.update_entity in *.
    destruct (Dict.get _ _) as [e|] eqn:E; simpl in *; [|assumption].
    split; [now apply NoDup_keys_set|]. split; [assumption|]. split; [simpl; lia|].
    simpl. intros k Hin. erewrite keys_set_present in Hin by eauto. auto.
  - unfold Entities.delete_entity in *.
    destruct (negb _); simpl in *; [assumption|].
    split; [now apply NoDup_keys_del|]. split; [assumption|]. split; [simpl; lia|].
    simpl. intros k Hin. apply in_keys_del in Hin. apply Hb. tauto.
Qed.

Lemma entity_run_wf (cs : list (Entities.call Any)) st :
  entity_wf st -> entity_wf (snd (Entities.run Any cs st)).
Proof.
  revert st. induction cs as [|c cs IH]; intros st Hwf; simpl; auto.
  pose proof (entity_step_wf c st Hwf) as Hwf1.
  destruct (Entities.step Any c st) as [r st1]; simpl in *.
  specialize (IH st1 Hwf1).
  destruct (Entities.run Any cs st1) as [tr st2]; simpl in *. assumption.
Qed.

Lemma entity_wf_fresh_key st :
  entity_wf st ->
  Dict.get (Entities._ENTITIES_NEXT_ID st) (Entities._ENTITIES st) = None.
Proof.
  intros (_ & _ & _ & Hb).
  destruct (Dict.get _ _) as [e|] eqn:E; auto.
  apply get_some_in_keys in E. specialize (Hb _ E). lia.
Qed.

Lemma Entity_of_named e :
  min_length_ok 1 (Entities.rec_name e) = true ->
  Entities.Entity_of Any e = Some (entity_view e).
Proof. unfold Entities.Entity_of. now intros ->. Qed.

Lemma Entity_of_some e v :
  Entities.Entity_of Any e = Some v ->
  min_length_ok 1 (Entities.rec_name e) = true /\ v = entity_view e.
Proof.
  unfold Entities.Entity_of.
  destruct (min_length_ok _ _); [|discriminate]. now intros [= <-].
Qed.

Lemma Entities_of_named (es : list (Entities.EntityRecord Any)) :
  Forall (fun e => min_length_ok 1 (Entities.rec_name e) = true) es ->
  Entities.Entities_of Any es = Some (map entity_view es).
Proof.
  induction 1 as [|e es He Hes IH]; simpl; auto.
  now rewrite (Entity_of_named _ He), IH.
Qed.

Lemma Entities_of_some (es : list (Entities.EntityRecord Any)) vs :
  Entities.Entities_of Any es = Some vs ->
  Forall (fun e => min_length_ok 1 (Entities.rec_name e) = true) es.
Proof.
  revert vs. induction es as [|e es IH]; simpl; intros vs; [constructor|].
  destruct (Entities.Entity_of Any e) as [v|] eqn:Ev; simpl; [|discriminate].
  destruct (Entities.Entities_of Any es) as [vs'|]; simpl; [|discriminate].
  intros _. constructor; eauto. now apply Entity_of_some in Ev.
Qed.

Lemma entity_named_values st :
  entity_named st <->
  Forall (fun e => min_length_ok 1 (Entities.rec_name e) = true)
         (Dict.values (Entities._ENTITIES st)).
Proof.
  unfold entity_named, Dict.values. now rewrite Forall_map.
Qed.

Lemma entity_step_named (c : Entities.call Any) st :
  names_entity c = true -> entity_named st ->
  fst (Entities.step Any c st) <> ResponseModelError /\
  entity_named (snd (Entities.step Any c st)).
Proof.
  intros Hc Hn. destruct c as [p| |i|i p|i]; simpl in *.
  - unfold Entities.Entity_of. simpl. rewrite Hc. simpl.
    split; [discriminate|]. apply Forall_set; auto.
  - apply entity_named_values in Hn as Hv.
    rewrite (Entities_of_named _ Hv). simpl. split; [discriminate|assumption].
  - unfold Entities.get_entity.
    destruct (Dict.get _ _) as [e|] eqn:E; simpl; [|split; [discriminate|assumption]].
    unfold entity_named in Hn. rewrite Forall_forall in Hn.
    pose proof (Hn _ (get_some_in _ _ _ E)) as He. simpl in He.
    rewrite (Entity_of_named _ He). simpl. split; [discriminate|].
    now apply Forall_forall.
  - unfold Entities.update_entity.
    destruct (Dict.get _ _) as [e|] eqn:E; simpl; [|split; [discriminate|assumption]].
    assert (He : min_length_ok 1 (Entities.rec_name (Entities.apply_update Any p e)) = true).
    { rewrite apply_update_name. destruct (Entities.eu_name p); auto.
      unfold entity_named in Hn. rewrite Forall_forall in Hn.
      apply (Hn _ (get_some_in _ _ _ E)). }
    rewrite (Entity_of_named _ He). simpl. split; [discriminate|].
    apply Forall_set; auto.
  - unfold Entities.delete_entity.
    destruct (negb _); simpl; split; try discriminate; auto.
    now apply Forall_del.
Qed.

End EntitiesMore.

(** X9. Whatever calls have been made since the module was loaded, the
    entity registry is well formed: no key occurs twice, the ["id"] of each
    stored record is its key, the counter is at least 1 and every key lies
    between 1 and the counter, the counter excluded. *)
Theorem entities_always_well_formed
  (Any : Type) (cs : list (Entities.call Any)) :
  entity_wf (snd (Entities.run Any cs Entities.init)).
Proof.
  apply entity_run_wf.
  split; [constructor|]. split; [constructor|]. split; [simpl; lia|].
  intros k [].
Qed.

(** X10. As long as no create and no update carries an empty name, no call
    of the entity registry fails to build its response, and every stored
    entity has a name of at least one character. *)
Theorem entities_named_while_no_empty_name
  (Any : Type) (cs : list (Entities.call Any)) (st : Entities.state Any) :
  entity_named st ->
  forallb names_entity cs = true ->
  Forall (fun x => snd x <> ResponseModelError) (fst (Entities.run Any cs st)) /\
  entity_named (snd (Entities.run Any cs st)).
Proof.
  revert st. induction cs as [|c cs IH]; intros st Hn Hcs; simpl.
  - split; [constructor|assumption].
  - simpl in Hcs. apply andb_true_iff in Hcs. destruct Hcs as [Hc Hcs].
    destruct (entity_step_named c st Hc Hn) as [Hr Hn1].
    destruct (Entities.step Any c st) as [r st1]; simpl in *.
    destruct (IH st1 Hn1 Hcs) as [Htr Hn2].
    destruct (Entities.run Any cs st1) as [tr st2]; simpl in *.
    split; [constructor; auto|assumption].
Qed.

Lemma entities_named_while_no_empty_name_witness :
  let cs := [Entities.CreateEntity (Entities.mkEntityCreate "Widget" None None);
             Entities.UpdateEntity 1 (Entities.mkEntityUpdate (Some "Gadget") None (Some [("a", 1)]));
             Entities.ListEntities;
             Entities.DeleteEntity 1;
             Entities.GetEntity 1] in
  Forall (fun x => snd x <> ResponseModelError)
         (fst (Entities.run Z cs Entities.init)) /\
  entity_named (snd (Entities.run Z cs Entities.init)).
Proof.
  intros cs.
  apply (entities_named_while_no_empty_name Z cs Entities.init).
  - constructor.
  - reflexivity.
Defined.

(** X11. In a well-formed registry, creating an entity with a name of at
    least one character returns the entity with the counter as its id, puts
    the record after all the others and moves the counter up by one; a get
    of the new id then returns the same entity; and a metadata map that the
    payload carries is stored as it is. *)
Theorem create_entity_appends
  (Any : Type) (st : Entities.state Any) (p : Entities.EntityCreate Any) :
  entity_wf st ->
  min_length_ok 1 (Entities.ec_name p) = true ->
  let eid := Entities._ENTITIES_NEXT_ID st in
  let e := Entities.mkEntityRecord eid (Entities.ec_name p) (Entities.ec_description p)
             (Entities.metadata_or_empty Any (Entities.ec_metadata p)) in
  let st' := Entities.mkState (Entities._ENTITIES st ++ [(eid, e)]) (eid + 1) in
  Entities.create_entity Any p st = (Ok (entity_view e), st') /\
  Entities.get_entity Any eid st' = (Ok (entity_view e), st') /\
  (forall m, Entities.ec_metadata p = Some m -> Entities.rec_metadata e = m).
Proof.
  intros Hwf Hname eid e st'.
  pose proof (entity_wf_fresh_key st Hwf) as Hkey. fold eid in Hkey.
  assert (He : Entities.Entity_of Any e = Some (entity_view e))
    by now apply Entity_of_named.
  split; [|split].
  - unfold Entities.create_entity. simpl. fold eid. fold e.
    now rewrite He, (set_absent _ _ _ Hkey).
  - unfold Entities.get_entity. subst st'. simpl.
    rewrite <- (set_absent _ _ _ Hkey), get_set_same, He. reflexivity.
  - intros m Hm. subst e. simpl. rewrite Hm. now destruct m.
Qed.

Lemma create_entity_appends_witness :
  let st := Entities.mkState [(1, Entities.mkEntityRecord 1 "Widget" None [])] 2 in
  let p := Entities.mkEntityCreate "Gadget" (Some "a gadget") (Some [("a", 1)]) in
  let e := Entities.mkEntityRecord 2 "Gadget" (Some "a gadget") [("a", 1)] in
  let st' := Entities.mkState [(1, Entities.mkEntityRecord 1 "Widget" None []); (2, e)] 3 in
  Entities.create_entity Z p st
  = (Ok (Entities.mkEntity 2 "Gadget" (Some "a gadget") [("a", 1)]), st') /\
  Entities.get_entity Z 2 st'
  = (Ok (Entities.mkEntity 2 "Gadget" (Some "a gadget") [("a", 1)]), st').
Proof.
  intros st p e st'.
  assert (Hwf : entity_wf st).
  { split; [repeat constructor; simpl; tauto|].
    split; [repeat constructor|]. split; [simpl; lia|].
    simpl. intros k [<-|[]]. lia. }
  destruct (create_entity_appends Z st p Hwf eq_refl) as (Hc & Hg & _).
  split; [exact Hc | exact Hg].
Defined.

(** X12. An update of an entity that is in the registry leaves the counter,
    the keys of the registry and every other entity as they are; the record
    keeps its id, and each of name, description and metadata is the
    payload's where the payload has one and the old one where it has none.
    A description, once set, cannot be removed by an update. *)
Theorem update_entity_frame
  (Any : Type) (st : Entities.state Any) (i : Z)
  (p : Entities.EntityUpdate Any) (e : Entities.EntityRecord Any) :
  Dict.get i (Entities._ENTITIES st) = Some e ->
  let st' := snd (Entities.update_entity Any i p st) in
  Entities._ENTITIES_NEXT_ID st' = Entities._ENTITIES_NEXT_ID st /\
  Dict.keys (Entities._ENTITIES st') = Dict.keys (Entities._ENTITIES st) /\
  (forall j, j <> i ->
             Dict.get j (Entities._ENTITIES st') = Dict.get j (Entities._ENTITIES st)) /\
  exists e',
    Dict.get i (Entities._ENTITIES st') = Some e' /\
    Entities.rec_id e' = Entities.rec_id e /\
    Entities.rec_name e'
    = match Entities.eu_name p with Some n => n | None => Entities.rec_name e end /\
    Entities.rec_description e'
    = match Entities.eu_description p with
      | Some d => Some d
      | None => Entities.rec_description e
      end /\
    Entities.rec_metadata e'
    = match Entities.eu_metadata p with Some m => m | None => Entities.rec_metadata e end /\
    (Entities.rec_description e <> None -> Entities.rec_description e' <> None).
Proof.
  intros Hget st'. subst st'. unfold Entities.update_entity. rewrite Hget. simpl.
  split; [reflexivity|]. split; [eapply keys_set_present; eauto|].
  split; [intros j Hj; now apply get_set_other|].
  eexists. split; [apply get_set_same|].
  rewrite entity_apply_update_id, apply_update_name.
  unfold Entities.apply_update.
  destruct (Entities.eu_name p), (Entities.eu_description p),
    (Entities.eu_metadata p); simpl; repeat split; auto; discriminate.
Qed.

Lemma update_entity_frame_witness :
  let e1 := Entities.mkEntityRecord 1 "Widget" (Some "a widget") [("a", 1)] in
  let e2 := Entities.mkEntityRecord 2 "Gadget" None [] in
  let st := Entities.mkState [(1, e1); (2, e2)] 3 in
  let st' := snd (Entities.update_entity Z 1
                    (Entities.mkEntityUpdate (Some "Sprocket") None None) st) in
  Dict.get 2 (Entities._ENTITIES st') = Some e2 /\
  exists e', Dict.get 1 (Entities._ENTITIES st') = Some e' /\
             Entities.rec_name e' = "Sprocket" /\
             Entities.rec_description e' = Some "a widget" /\
             Entities.rec_metadata e' = [("a", 1)].
Proof.
  intros e1 e2 st st'.
  destruct (update_entity_frame Z st 1
              (Entities.mkEntityUpdate (Some "Sprocket") None None) e1 eq_refl)
    as (_ & _ & Hothers & e' & Hget & _ & Hn & Hd & Hm & _).
  split; [apply Hothers; lia|].
  exists e'. auto.
Defined.

Lemma entity_values_del {Any} i (d : dict (Entities.EntityRecord Any)) :
  Forall (fun kv => Entities.rec_id (snd kv) = fst kv) d ->
  Dict.values (Dict.del i d)
  = filter (fun e => negb (Entities.rec_id e =? i)) (Dict.values d).
Proof.
  unfold Dict.values.
  induction 1 as [|[k e] d Hk Hd IH]; simpl in *; auto.
  subst k. rewrite (Z.eqb_sym i).
  destruct (Entities.rec_id e =? i); simpl; now rewrite IH.
Qed.

(** X13. Deleting an entity that is in a well-formed registry returns
    without content and leaves the counter alone; a get of that id then
    raises the 404, a get of any other id answers as before, and the stored
    records are the old ones without that entity, in their order. *)
Theorem delete_entity_removes
  (Any : Type) (st : Entities.state Any) (i : Z) (e : Entities.EntityRecord Any) :
  entity_wf st ->
  Dict.get i (Entities._ENTITIES st) = Some e ->
  let st' := snd (Entities.delete_entity Any i st) in
  fst (Entities.delete_entity Any i st) = Ok tt /\
  Entities._ENTITIES_NEXT_ID st' = Entities._ENTITIES_NEXT_ID st /\
  Entities.get_entity Any i st' = (HTTPException 404 "Entity not found.", st') /\
  (forall j, j <> i ->
             fst (Entities.get_entity Any j st') = fst (Entities.get_entity Any j st)) /\
  Dict.values (Entities._ENTITIES st')
  = filter (fun e' => negb (Entities.rec_id e' =? i)) (Dict.values (Entities._ENTITIES st)).
Proof.
  intros (_ & Hk & _) Hget st'. subst st'.
  unfold Entities.delete_entity, Dict.contains. rewrite Hget. simpl.
  split; [reflexivity|]. split; [reflexivity|].
  unfold Entities.get_entity. simpl. rewrite get_del_same.
  split; [reflexivity|]. split.
  - intros j Hj. rewrite (get_del_other _ _ _ Hj).
    now destruct (Dict.get j _).
  - now apply entity_values_del.
Qed.

Lemma delete_entity_removes_witness :
  let e1 := Entities.mkEntityRecord 1 "Widget" None [("a", 1)] in
  let e2 := Entities.mkEntityRecord 2 "Gadget" None [] in
  let st := Entities.mkState [(1, e1); (2, e2)] 3 in
  let st' := snd (Entities.delete_entity Z 1 st) in
  Entities.get_entity Z 1 st' = (HTTPException 404 "Entity not found.", st') /\
  Dict.values (Entities._ENTITIES st') = [e2].
Proof.
  intros e1 e2 st st'.
  assert (Hwf : entity_wf st).
  { split; [repeat constructor; simpl; intuition discriminate|].
    split; [repeat constructor|]. split; [simpl; lia|].
    simpl. intros k [<-|[<-|[]]]; lia. }
  destruct (delete_entity_removes Z st 1 e1 Hwf eq_refl) as (_ & _ & Hg & _ & Hv).
  split; [exact Hg | exact Hv].
Defined.

(** X14. A call of the entity registry that is answered with a 404 or with
    the rejection of its body leaves the registry exactly as it was; this
    holds of the handlers and of the two routes that validate a body. *)
Theorem entity_refusal_changes_nothing (Any : Type) :
  (forall (c : Entities.call Any) st,
      is_refusal (fst (Entities.step Any c st)) = true ->
      snd (Entities.step Any c st) = st) /\
  (forall b st,
      is_refusal (fst (Entities.post_entities Any b st)) = true ->
      snd (Entities.post_entities Any b st) = st) /\
  (forall i b st,
      is_refusal (fst (Entities.patch_entities Any i b st)) = true ->
      snd (Entities.patch_entities Any i b st) = st).
Proof.
  assert (Hcreate : forall p st,
             is_refusal (fst (Entities.create_entity Any p st)) = true ->
             snd (Entities.create_entity Any p st) = st).
  { intros p st. unfold Entities.create_entity. simpl.
    destruct (Entities.Entity_of Any _); simpl; discriminate. }
  assert (Hupdate : forall i p st,
             is_refusal (fst (Entities.update_entity Any i p st)) = true ->
             snd (Entities.update_entity Any i p st) = st).
  { intros i p st. unfold Entities.update_entity.
    destruct (Dict.get _ _) as [e|]; simpl; [|reflexivity].
    destruct (Entities.Entity_of Any _); simpl; discriminate. }
  split; [|split].
  - intros [p| |i|i p|i] st.
    + specialize (Hcreate p st). cbn [Entities.step].
      destruct (Entities.create_entity Any p st) as [[]]; simpl in *; auto.
    + reflexivity.
    + simpl. unfold Entities.get_entity. destruct (Dict.get _ _); reflexivity.
    + specialize (Hupdate i p st). cbn [Entities.step].
      destruct (Entities.update_entity Any i p st) as [[]]; simpl in *; auto.
    + simpl. unfold Entities.delete_entity.
      destruct (negb _); simpl; [reflexivity|discriminate].
  - intros b st. unfold Entities.post_entities.
    destruct (Entities.parse_EntityCreate Any b); [apply Hcreate|reflexivity].
  - intros i b st. unfold Entities.patch_entities.
    destruct (Entities.parse_EntityUpdate Any b); [apply Hupdate|reflexivity].
Qed.

Lemma entity_refusal_changes_nothing_witness :
  let st := Entities.mkState [(1, Entities.mkEntityRecord 1 "Widget" None [("a", 1)])] 2 in
  snd (Entities.step Z (Entities.DeleteEntity 4) st) = st /\
  snd (Entities.post_entities Z (Entities.mkEntityCreateBody Null Absent Absent) st) = st /\
  snd (Entities.patch_entities Z 4
         (Entities.mkEntityUpdateBody (Given "Gadget") Absent Absent) st) = st.
Proof.
  intros st.
  destruct (entity_refusal_changes_nothing Z) as (Hstep & Hpost & Hpatch).
  split; [|split].
  - apply Hstep. reflexivity.
  - apply Hpost. reflexivity.
  - apply Hpatch. reflexivity.
Defined.

Lemma entity_apply_update_twice {Any} (p : Entities.EntityUpdate Any) e :
  Entities.apply_update Any p (Entities.apply_update Any p e)
  = Entities.apply_update Any p e.
Proof.
  unfold Entities.apply_update.
  destruct (Entities.eu_name p), (Entities.eu_description p),
    (Entities.eu_metadata p); reflexivity.
Qed.

(** X15. Updating an entity twice with the same payload is the same as
    doing it once: the second call gives the answer of the first, a failure
    to build the response included, and leaves the registry as the first
    left it. *)
Theorem update_entity_idempotent
  (Any : Type) (i : Z) (p : Entities.EntityUpdate Any) (st : Entities.state Any) :
  Entities.update_entity Any i p (snd (Entities.update_entity Any i p st))
  = Entities.update_entity Any i p st.
Proof.
  unfold Entities.update_entity.
  destruct (Dict.get i (Entities._ENTITIES st)) as [e|] eqn:E; simpl.
  - rewrite get_set_same, entity_apply_update_twice, set_set. reflexivity.
  - now rewrite E.
Qed.

(** X16. The list of entities is returned exactly when every stored entity
    has a name of at least one character, and it is then the stored records
    in their order; a single stored entity with the empty name makes the
    list fail, whatever else is stored. *)
Theorem list_entities_needs_names (Any : Type) (st : Entities.state Any) :
  ((exists l, fst (Entities.list_entities Any st) = Ok l) <-> entity_named st) /\
  (entity_named st ->
   Entities.list_entities Any st
   = (Ok (map entity_view (Dict.values (Entities._ENTITIES st))), st)) /\
  (forall i e,
      Dict.get i (Entities._ENTITIES st) = Some e ->
      Entities.rec_name e = "" ->
      Entities.list_entities Any st = (ResponseModelError, st)).
Proof.
  assert (Hok : entity_named st ->
                Entities.list_entities Any st
                = (Ok (map entity_view (Dict.values (Entities._ENTITIES st))), st)).
  { intros Hn. unfold Entities.list_entities.
    apply entity_named_values in Hn. now rewrite (Entities_of_named _ Hn). }
  assert (Hback : forall l, fst (Entities.list_entities Any st) = Ok l -> entity_named st).
  { intros l. unfold Entities.list_entities. simpl.
    destruct (Entities.Entities_of Any _) as [vs|] eqn:E; simpl; [|discriminate].
    intros _. apply entity_named_values. eapply Entities_of_some; eauto. }
  split; [|split; [exact Hok|]].
  - split; [intros [l Hl]; eauto|].
    intros Hn. rewrite (Hok Hn). simpl. eauto.
  - intros i e Hget Hname.
    unfold Entities.list_entities.
    destruct (Entities.Entities_of Any _) as [vs|] eqn:E; simpl; [|reflexivity].
    exfalso. apply Entities_of_some in E. rewrite Forall_forall in E.
    assert (Hin : In e (Dict.values (Entities._ENTITIES st))).
    { unfold Dict.values. apply in_map_iff. exists (i, e).
      split; auto. now apply get_some_in. }
    specialize (E e Hin). rewrite Hname in E. discriminate.
Qed.

Lemma list_entities_needs_names_witness :
  let good := Entities.mkEntityRecord 1 "Widget" None [("a", 1)] in
  let bad := Entities.mkEntityRecord 2 "" None [] in
  Entities.list_entities Z (Entities.mkState [(1, good)] 2)
  = (Ok [Entities.mkEntity 1 "Widget" None [("a", 1)]], Entities.mkState [(1, good)] 2) /\
  Entities.list_entities Z (Entities.mkState [(1, good); (2, bad)] 3)
  = (ResponseModelError, Entities.mkState [(1, good); (2, bad)] 3).
Proof.
  intros good bad. split.
  - destruct (list_entities_needs_names Z (Entities.mkState [(1, good)] 2))
      as (_ & Hok & _).
    apply Hok. repeat constructor.
  - destruct (list_entities_needs_names Z (Entities.mkState [(1, good); (2, bad)] 3))
      as (_ & _ & Hbad).
    apply (Hbad 2 bad); reflexivity.
Defined.




(** ** The settings: the list of CORS origins *)

Section SettingsFacts.

Import Settings.

Local Notation "'chars'" := list_ascii_of_string.

Lemma lstrip_head s c r : lstrip s = String c r -> isspace c = false.
Proof.
  induction s as [|a s IH]; simpl; [discriminate|].
  destruct (isspace a) eqn:E; auto.
  now intros [= <- _].
Qed.

Lemma lstrip_fixed c r : isspace c = false -> lstrip (String c r) = String c r.
Proof. simpl. now intros ->. Qed.

Lemma rstrip_head c s :
  isspace c = false -> rstrip (String c s) = String c (rstrip s).
Proof.
  intros Hc. simpl. destruct (rstrip s); [now rewrite Hc|reflexivity].
Qed.

Lemma rstrip_twice s : rstrip (rstrip s) = rstrip s.
Proof.
  induction s as [|c s IH]; simpl; auto.
  destruct (rstrip s) as [|a r] eqn:E.
  - destruct (isspace c) eqn:Hc; simpl; [reflexivity|now rewrite Hc].
  - change (rstrip (String c (String a r)))
      with (match rstrip (String a r) with
            | EmptyString => if isspace c then EmptyString else String c EmptyString
            | x => String c x
            end).
    now rewrite IH.
Qed.

Lemma strip_twice s : strip (strip s) = strip s.
Proof.
  unfold strip. destruct (lstrip s) as [|c r] eqn:E; [reflexivity|].
  pose proof (lstrip_head _ _ _ E) as Hc.
  rewrite (rstrip_head _ _ Hc), (lstrip_fixed _ _ Hc).
  rewrite <- (rstrip_head _ _ Hc). apply rstrip_twice.
Qed.

Lemma chars_lstrip s c : In c (chars (lstrip s)) -> In c (chars s).
Proof.
  induction s as [|a s IH]; simpl; auto.
  destruct (isspace a); simpl; auto.
Qed.

Lemma chars_rstrip s c : In c (chars (rstrip s)) -> In c (chars s).
Proof.
  induction s as [|a s IH]; simpl; auto.
  destruct (rstrip s) as [|b r].
  - destruct (isspace a); simpl; tauto.
  - simpl in *. tauto.
Qed.

Lemma chars_strip s c : In c (chars (strip s)) -> In c (chars s).
Proof. unfold strip. intros H. now apply chars_lstrip, chars_rstrip. Qed.

Lemma lstrip_keeps s c : isspace c = false -> In c (chars s) -> In c (chars (lstrip s)).
Proof.
  intros Hc. induction s as [|a s IH]; simpl; auto.
  destruct (isspace a) eqn:Ha; simpl; auto.
  intros [->|H]; [congruence|auto].
Qed.

Lemma rstrip_keeps s c : isspace c = false -> In c (chars s) -> In c (chars (rstrip s)).
Proof.
  intros Hc. induction s as [|a s IH]; simpl; auto.
  intros [->|H].
  - destruct (rstrip s); [rewrite Hc|]; simpl; auto.
  - specialize (IH H). destruct (rstrip s) as [|b r]; [contradiction|].
    simpl in *. tauto.
Qed.

Lemma strip_keeps s c : isspace c = false -> In c (chars s) -> In c (chars (strip s)).
Proof. unfold strip. intros Hc H. now apply rstrip_keeps, lstrip_keeps. Qed.

Lemma lstrip_spaces s : (forall c, In c (chars s) -> isspace c = true) -> lstrip s = "".
Proof.
  induction s as [|a s IH]; simpl; auto.
  intros H. rewrite (H a) by auto. apply IH. auto.
Qed.

Lemma strip_spaces s : (forall c, In c (chars s) -> isspace c = true) -> strip s = "".
Proof. unfold strip. intros H. now rewrite lstrip_spaces. Qed.

Lemma split_comma_cons s : exists p ps, split_comma s = p :: ps.
Proof.
  induction s as [|c s (p & ps & IH)]; simpl; eauto.
  destruct (Ascii.eqb c ","); eauto. rewrite IH. eauto.
Qed.

Lemma split_comma_no_comma s :
  Forall (fun p => ~ In ","%char (chars p)) (split_comma s).
Proof.
  induction s as [|c s IH]; simpl.
  - constructor; [simpl; tauto|constructor].
  - destruct (Ascii.eqb c ",") eqn:E.
    + constructor; [simpl; tauto|assumption].
    + apply Ascii.eqb_neq in E.
      destruct (split_comma s) as [|p ps].
      * constructor; [simpl; intuition congruence|constructor].
      * inversion IH; subst. constructor; auto.
        simpl. intuition congruence.
Qed.

Lemma split_comma_chars s p c :
  In p (split_comma s) -> In c (chars p) -> In c (chars s).
Proof.
  revert p. induction s as [|a s IH]; simpl; intros p.
  - intros [<-|[]]. auto.
  - destruct (Ascii.eqb a ",").
    + intros [<-|H] Hc; [contradiction|]. right. eauto.
    + destruct (split_comma s) as [|q qs].
      * intros [<-|[]]. simpl. tauto.
      * intros [<-|H] Hc.
        -- simpl in Hc. destruct Hc; auto. right. apply (IH q); simpl; auto.
        -- right. apply (IH p); simpl; auto.
Qed.

Lemma split_comma_piece p :
  ~ In ","%char (chars p) -> split_comma p = [p].
Proof.
  induction p as [|c p IH]; simpl; auto.
  intros H. destruct (Ascii.eqb c ",") eqn:E.
  - apply Ascii.eqb_eq in E. tauto.
  - rewrite IH by tauto. reflexivity.
Qed.

Lemma split_comma_append p s :
  ~ In ","%char (chars p) ->
  split_comma (String.append p (String "," s)) = p :: split_comma s.
Proof.
  induction p as [|c p IH]; simpl; auto.
  intros H. destruct (Ascii.eqb c ",") eqn:E.
  - apply Ascii.eqb_eq in E. tauto.
  - rewrite IH by tauto. reflexivity.
Qed.

Lemma split_join ps :
  ps <> [] -> Forall (fun p => ~ In ","%char (chars p)) ps ->
  split_comma (join_comma ps) = ps.
Proof.
  induction ps as [|p ps IH]; [congruence|].
  intros _ H. inversion H as [|? ? Hp Hps]; subst.
  destruct ps as [|q ps].
  - simpl. now apply split_comma_piece.
  - change (join_comma (p :: q :: ps))
      with (String.append p (String "," (join_comma (q :: ps)))).
    rewrite split_comma_append by assumption.
    rewrite IH; auto. discriminate.
Qed.

Lemma chars_append a b c :
  In c (chars (String.append a b)) <-> In c (chars a) \/ In c (chars b).
Proof.
  induction a as [|x a IH]; simpl; [tauto|]. rewrite IH. tauto.
Qed.

Lemma nonempty_iff s : nonempty s = true <-> s <> "".
Proof. destruct s; simpl; split; intros; try discriminate; congruence. Qed.

End SettingsFacts.

Lemma filter_none {A} (f : A -> bool) (l : list A) :
  (forall x, In x l -> f x = false) -> filter f l = [].
Proof.
  induction l as [|a l IH]; simpl; auto.
  intros H. rewrite (H a) by auto. apply IH. auto.
Qed.

Lemma filter_all {A} (f : A -> bool) (l : list A) :
  (forall x, In x l -> f x = true) -> filter f l = l.
Proof.
  induction l as [|a l IH]; simpl; auto.
  intros H. rewrite (H a) by auto. f_equal. apply IH. auto.
Qed.

Lemma map_fixed {A} (f : A -> A) (l : list A) :
  (forall x, In x l -> f x = x) -> map f l = l.
Proof.
  induction l as [|a l IH]; simpl; auto.
  intros H. rewrite (H a) by auto. f_equal. apply IH. auto.
Qed.

(** X18. Whatever the raw setting is, every origin in the list is a string
    that is not empty, has no white space at either end and contains no
    comma. *)
Theorem cors_origins_clean (self : Settings.Settings) :
  Forall (fun o => o <> "" /\ Settings.strip o = o /\
                   ~ In ","%char (list_ascii_of_string o))
         (Settings.cors_allow_origins self).
Proof.
  assert (Hstar : Forall (fun o => o <> "" /\ Settings.strip o = o /\
                                   ~ In ","%char (list_ascii_of_string o)) ["*"]).
  { constructor; [|constructor].
    split; [discriminate|]. split; [reflexivity|].
    simpl. intros [H|[]]. discriminate H. }
  unfold Settings.cors_allow_origins.
  destruct (Settings.cors_allow_origins_raw self) as [raw|]; [|exact Hstar].
  destruct (negb (Settings.nonempty raw) || String.eqb (Settings.strip raw) "*");
    [exact Hstar|].
  apply Forall_forall. intros o Ho.
  apply filter_In in Ho. destruct Ho as [Ho Hne].
  apply in_map_iff in Ho. destruct Ho as (p & <- & Hp).
  split; [now apply nonempty_iff|]. split; [apply strip_twice|].
  intros Hc. apply chars_strip in Hc.
  pose proof (split_comma_no_comma raw) as Hall.
  rewrite Forall_forall in Hall. now apply (Hall p Hp).
Qed.

Lemma join_comma_nonempty o os :
  o <> "" -> Settings.nonempty (Settings.join_comma (o :: os)) = true.
Proof.
  intros Ho. destruct o as [|c o]; [congruence|].
  destruct os; reflexivity.
Qed.

(** X19. Reading back a list that was written with commas: for a list of
    origins that is not empty and whose members are not empty, have no
    white space at either end and contain no comma, the origins computed
    from their comma-separated join are the list itself. *)
Theorem cors_origins_of_join (self : Settings.Settings) (os : list string) :
  os <> [] ->
  Forall (fun o => o <> "" /\ Settings.strip o = o /\
                   ~ In ","%char (list_ascii_of_string o)) os ->
  Settings.cors_allow_origins_raw self = Some (Settings.join_comma os) ->
  Settings.cors_allow_origins self = os.
Proof.
  intros Hne Hall Hraw. unfold Settings.cors_allow_origins. rewrite Hraw.
  rewrite Forall_forall in Hall.
  assert (Hcomma : Forall (fun p => ~ In ","%char (list_ascii_of_string p)) os).
  { apply Forall_forall. intros o Ho. apply (Hall o Ho). }
  assert (Hparsed : filter Settings.nonempty
                      (map Settings.strip (Settings.split_comma (Settings.join_comma os)))
                    = os).
  { rewrite (split_join os Hne Hcomma).
    rewrite map_fixed by (intros o Ho; apply (Hall o Ho)).
    apply filter_all. intros o Ho. apply nonempty_iff. apply (Hall o Ho). }
  destruct os as [|o os]; [congruence|].
  rewrite join_comma_nonempty by (apply (Hall o); simpl; auto). simpl negb.
  rewrite orb_false_l.
  destruct (String.eqb _ "*") eqn:E; [|exact Hparsed].
  apply String.eqb_eq in E.
  destruct os as [|o' os].
  - simpl in E. destruct (Hall o) as (_ & Hs & _); [simpl; auto|]. congruence.
  - exfalso.
    assert (Hin : In ","%char
                    (list_ascii_of_string (Settings.strip (Settings.join_comma (o :: o' :: os))))).
    { apply strip_keeps; [reflexivity|].
      change (Settings.join_comma (o :: o' :: os))
        with (String.append o (String "," (Settings.join_comma (o' :: os)))).
      apply chars_append. right. simpl. auto. }
    rewrite E in Hin. simpl in Hin. destruct Hin as [H|[]]. discriminate H.
Qed.

Lemma cors_origins_of_join_witness :
  Settings.cors_allow_origins
    (Settings.mkSettings "Ocean Professional API" "development"
       (Some "https://a.example,http://localhost:3000") "sqlite:///./app.db")
  = ["https://a.example"; "http://localhost:3000"].
Proof.
  apply (cors_origins_of_join _ ["https://a.example"; "http://localhost:3000"]).
  - discriminate.
  - repeat constructor; try discriminate;
      simpl; intuition discriminate.
  - reflexivity.
Defined.

(** X20. When the list is the wild card and when it is empty.  Without a
    raw setting, with the empty one, or with one that is ["*"] up to white
    space at its ends, the origins are the wild card alone.  With a raw
    setting that is not empty and is made of white space and commas only,
    the list of origins is empty. *)
Theorem cors_origins_wildcard_or_none (self : Settings.Settings) :
  (Settings.cors_allow_origins_raw self = None ->
   Settings.cors_allow_origins self = ["*"]) /\
  (Settings.cors_allow_origins_raw self = Some "" ->
   Settings.cors_allow_origins self = ["*"]) /\
  (forall raw,
      Settings.cors_allow_origins_raw self = Some raw ->
      Settings.strip raw = "*" ->
      Settings.cors_allow_origins self = ["*"]) /\
  (forall raw,
      Settings.cors_allow_origins_raw self = Some raw ->
      raw <> "" ->
      (forall c, In c (list_ascii_of_string raw) ->
                 Settings.isspace c = true \/ c = ","%char) ->
      Settings.cors_allow_origins self = []).
Proof.
  unfold Settings.cors_allow_origins.
  split; [now intros ->|]. split; [now intros ->|]. split.
  - intros raw -> ->. now rewrite orb_true_r.
  - intros raw -> Hne Hchars.
    apply nonempty_iff in Hne. rewrite Hne. simpl negb. rewrite orb_false_l.
    destruct (String.eqb _ "*") eqn:E.
    + exfalso. apply String.eqb_eq in E.
      assert (Hin : In "*"%char (list_ascii_of_string (Settings.strip raw)))
        by (rewrite E; simpl; auto).
      apply chars_strip in Hin. destruct (Hchars _ Hin) as [H|H]; discriminate H.
    + apply filter_none. intros o Ho.
      apply in_map_iff in Ho. destruct Ho as (p & <- & Hp).
      rewrite strip_spaces; [reflexivity|].
      intros c Hc.
      destruct (Hchars c (split_comma_chars _ _ _ Hp Hc)) as [H|H]; auto.
      subst c. exfalso.
      pose proof (split_comma_no_comma raw) as Hall.
      rewrite Forall_forall in Hall. now apply (Hall p Hp).
Qed.

Lemma cors_origins_wildcard_or_none_witness :
  Settings.cors_allow_origins
    (Settings.mkSettings "Ocean Professional API" "development" (Some " * ")
       "sqlite:///./app.db") = ["*"] /\
  Settings.cors_allow_origins
    (Settings.mkSettings "Ocean Professional API" "development" (Some " , ,")
       "sqlite:///./app.db") = [].
Proof.
  split.
  - destruct (cors_origins_wildcard_or_none
                (Settings.mkSettings "Ocean Professional API" "development" (Some " * ")
                   "sqlite:///./app.db")) as (_ & _ & Hstar & _).
    apply (Hstar " * "); reflexivity.
  - destruct (cors_origins_wildcard_or_none
                (Settings.mkSettings "Ocean Professional API" "development" (Some " , ,")
                   "sqlite:///./app.db")) as (_ & _ & _ & Hnone).
    apply (Hnone " , ,"); [reflexivity|discriminate|].
    simpl. intros c [<-|[<-|[<-|[<-|[]]]]]; auto.
Defined.

(** ** The settings: the database URL *)

Lemma prefix_iff (a s : string) :
  String.prefix a s = true <-> exists q, s = String.append a q.
Proof.
  revert s. induction a as [|c a IH]; intros s.
  - destruct s; simpl; split; eauto.
  - destruct s as [|d s]; simpl.
    + split; [discriminate|]. intros [q H]. discriminate H.
    + destruct (ascii_dec c d) as [->|Hn].
      * rewrite IH. split; intros [q H]; exists q; congruence.
      * split; [discriminate|]. intros [q H]. congruence.
Qed.

Lemma str_contains_iff (a s : string) :
  Settings.str_contains a s = true
  <-> exists p q, s = String.append p (String.append a q).
Proof.
  induction s as [|c s IH]; cbn [Settings.str_contains].
  - rewrite orb_false_r, prefix_iff. split.
    + intros [q H]. exists "", q. assumption.
    + intros (p & q & H). destruct p; [|discriminate H]. eauto.
  - rewrite orb_true_iff, IH, prefix_iff. split.
    + intros [[q H]|(p & q & H)].
      * exists "", q. assumption.
      * exists (String c p), q. simpl. congruence.
    + intros (p & q & H). destruct p as [|d p]; simpl in H.
      * left. eauto.
      * right. exists p, q. congruence.
Qed.

Lemma length_append (a b : string) :
  String.length (String.append a b) = (String.length a + String.length b)%nat.
Proof. induction a as [|c a IH]; simpl; auto. Qed.

(** X21. [validate_db_url] accepts a string exactly when it contains
    ["://"], that is, when it is some text, then ["://"], then some text;
    it returns an accepted string unchanged and raises [ValueError] for
    every other one. *)
Theorem validate_db_url_scheme (v : string) :
  (Settings.validate_db_url v = Settings.Valid v <->
   exists p q, v = String.append p (String.append "://" q)) /\
  (forall v', Settings.validate_db_url v = Settings.Valid v' -> v' = v) /\
  ((forall p q, v <> String.append p (String.append "://" q)) ->
   exists msg, Settings.validate_db_url v = Settings.ValueError msg).
Proof.
  unfold Settings.validate_db_url.
  pose proof (str_contains_iff "://" v) as Hc.
  destruct (Settings.str_contains "://" v); simpl.
  - split; [|split].
    + split; [intros _; now apply Hc|reflexivity].
    + now intros v' [= <-].
    + intros Hno. destruct (proj1 Hc eq_refl) as (p & q & H).
      now contradiction (Hno p q).
  - split; [|split].
    + split; [discriminate|]. intros H. apply Hc in H. discriminate H.
    + discriminate.
    + intros _. eauto.
Qed.

Lemma validate_db_url_scheme_witness :
  Settings.validate_db_url "sqlite:///./app.db" = Settings.Valid "sqlite:///./app.db" /\
  exists msg, Settings.validate_db_url ":/" = Settings.ValueError msg.
Proof.
  split.
  - destruct (validate_db_url_scheme "sqlite:///./app.db") as (Hiff & _).
    apply Hiff. exists "sqlite", "/./app.db". reflexivity.
  - destruct (validate_db_url_scheme ":/") as (_ & _ & Hno).
    apply Hno. intros p q H.
    assert (Hlen : String.length ":/"
                   = String.length (String.append p (String.append "://" q)))
      by now rewrite <- H.
    rewrite !length_append in Hlen. simpl in Hlen. lia.
Defined.

(** ** The cached OpenAPI schema *)

Section OpenAPIFacts.

Context {Any Routes : Type}.
Variable str_value : string -> Any.
Variable dict_value : list (string * Any) -> Any.
Variable get_openapi : string -> string -> string -> Routes -> list (string * Any).

Implicit Types (d : OpenAPI.Schema Any) (k : string).

Lemma sget_sset_same k (v : Any) d : OpenAPI.sget k (OpenAPI.sset k v d) = Some v.
Proof.
  induction d as [|[k' w] d IH]; simpl.
  - now rewrite String.eqb_refl.
  - destruct (String.eqb k k') eqn:E; simpl; rewrite ?String.eqb_refl, ?E; auto.
Qed.

Lemma sget_sset_other k k' (v : Any) d :
  k' <> k -> OpenAPI.sget k' (OpenAPI.sset k v d) = OpenAPI.sget k' d.
Proof.
  intros Hk. induction d as [|[j w] d IH]; simpl.
  - destruct (String.eqb k' k) eqn:E; auto. apply String.eqb_eq in E. contradiction.
  - destruct (String.eqb k j) eqn:E; simpl.
    + apply String.eqb_eq in E. subst j.
      destruct (String.eqb k' k) eqn:E'; auto. apply String.eqb_eq in E'. contradiction.
    + now rewrite IH.
Qed.

Lemma sset_not_empty k (v : Any) d : OpenAPI.sset k v d <> [].
Proof.
  destruct d as [|[k' w] d]; simpl; [discriminate|].
  destruct (String.eqb k k'); discriminate.
Qed.

End OpenAPIFacts.

(** X22. The schema is computed once.  After a call of [custom_openapi],
    every later call returns the schema of that call and leaves the
    application as it is, also when the routes or the title, version and
    description have changed in between. *)
Theorem custom_openapi_cached
  (Any Routes : Type) (str_value : string -> Any)
  (dict_value : list (string * Any) -> Any)
  (get_openapi : string -> string -> string -> Routes -> list (string * Any))
  (app : OpenAPI.App Any Routes) (t v d : string) (r : Routes) :
  let custom := OpenAPI.custom_openapi Any str_value dict_value Routes get_openapi in
  let s := fst (custom app) in
  let app1 := snd (custom app) in
  custom app1 = (s, app1) /\
  fst (custom (OpenAPI.mkApp t v d r (OpenAPI.openapi_schema app1))) = s.
Proof.
  intros custom s app1. subst custom s app1.
  unfold OpenAPI.custom_openapi.
  destruct (OpenAPI.openapi_schema app) as [[|kv s]|] eqn:E; simpl.
  - destruct (OpenAPI.sset "x-theme" _ _) eqn:Es; [now apply sset_not_empty in Es|].
    split; reflexivity.
  - rewrite E. split; reflexivity.
  - destruct (OpenAPI.sset "x-theme" _ _) eqn:Es; [now apply sset_not_empty in Es|].
    split; reflexivity.
Qed.

(** X23. When no schema is cached yet (none, or an empty one), the schema
    that [custom_openapi] returns and caches is the one [get_openapi]
    generates from the title, version, description and routes, with the
    theme under ["x-theme"]: every other key has the generated value, and a
    generated ["x-theme"] is overwritten. *)
Theorem custom_openapi_adds_theme
  (Any Routes : Type) (str_value : string -> Any)
  (dict_value : list (string * Any) -> Any)
  (get_openapi : string -> string -> string -> Routes -> list (string * Any))
  (app : OpenAPI.App Any Routes) :
  OpenAPI.openapi_schema app = None \/ OpenAPI.openapi_schema app = Some [] ->
  let custom := OpenAPI.custom_openapi Any str_value dict_value Routes get_openapi in
  let generated := get_openapi (OpenAPI.title app) (OpenAPI.version app)
                     (OpenAPI.description app) (OpenAPI.routes app) in
  let s := fst (custom app) in
  OpenAPI.openapi_schema (snd (custom app)) = Some s /\
  OpenAPI.sget "x-theme" s = Some (OpenAPI.x_theme Any str_value dict_value) /\
  (forall k, k <> "x-theme" -> OpenAPI.sget k s = OpenAPI.sget k generated).
Proof.
  intros Hnone custom generated s. subst custom generated s.
  unfold OpenAPI.custom_openapi.
  destruct Hnone as [-> | ->]; simpl;
    (split; [reflexivity|]; split; [apply sget_sset_same|];
     intros k Hk; now apply sget_sset_other).
Qed.

Lemma custom_openapi_adds_theme_witness :
  let get_openapi := fun (t v d : string) (r : list string) =>
                       [("openapi", t); ("x-theme", v)] in
  let app := OpenAPI.mkApp "Ocean Professional API" "0.1.0" "Modern RESTful API"
               ["/users"; "/entities"] None in
  let custom := OpenAPI.custom_openapi string (fun s => s) (fun _ => "theme")
                  (list string) get_openapi in
  OpenAPI.sget "x-theme" (fst (custom app)) = Some "theme" /\
  OpenAPI.sget "openapi" (fst (custom app)) = Some "Ocean Professional API".
Proof.
  intros get_openapi app custom.
  destruct (custom_openapi_adds_theme string (list string) (fun s => s)
              (fun _ => "theme") get_openapi app (or_introl eq_refl))
    as (_ & Htheme & Hothers).
  split; [exact Htheme|].
  rewrite Hothers by discriminate. reflexivity.
Defined.

(** ** Identifiers are handed out without gaps *)

Lemma user_step_counter (str_lower : string -> string) c st :
  match user_event (c, fst (Users.step str_lower c st)) with
  | Issued i =>
      i = Users._NEXT_ID st /\
      Users._NEXT_ID (snd (Users.step str_lower c st)) = Users._NEXT_ID st + 1
  | _ => Users._NEXT_ID (snd (Users.step str_lower c st)) = Users._NEXT_ID st
  end.
Proof.
  destruct c as [p| |i|i p|i]; simpl.
  - unfold Users.create_user.
    destruct (Users.email_taken _ _ _); simpl; auto.
  - reflexivity.
  - unfold Users.get_user. destruct (Dict.get _ _); reflexivity.
  - unfold Users.update_user. destruct (Dict.get _ _); reflexivity.
  - unfold Users.delete_user. destruct (negb _); reflexivity.
Qed.

Lemma user_run_sequential (str_lower : string -> string) cs st :
  let ids := issued (map user_event (fst (Users.run str_lower cs st))) in
  ids = zseq (Users._NEXT_ID st) (List.length ids) /\
  Users._NEXT_ID (snd (Users.run str_lower cs st))
  = Users._NEXT_ID st + Z.of_nat (List.length ids).
Proof.
  revert st. induction cs as [|c cs IH]; intros st; cbn [Users.run Entities.run].
  - simpl. split; [reflexivity|lia].
  - pose proof (user_step_counter str_lower c st) as Hstep.
    destruct (Users.step str_lower c st) as [r st1]; cbn [fst snd] in *.
    specialize (IH st1).
    destruct (Users.run str_lower cs st1) as [tr st2]; cbn [fst snd map] in *.
    destruct IH as [IH1 IH2].
    destruct (user_event (c, r)) as [i|l|i|]; cbn [issued List.length zseq].
    + destruct Hstep as [-> Hn]. rewrite Hn in IH1, IH2.
      split; [now f_equal|lia].
    + rewrite Hstep in IH1, IH2. auto.
    + rewrite Hstep in IH1, IH2. auto.
    + rewrite Hstep in IH1, IH2. auto.
Qed.

(** X24. The user registry hands out identifiers without gaps: whatever
    calls have been made since the module was loaded, the ids returned by
    the successful creates are 1, 2, 3, ... in this order, and the counter
    is one more than their number; a create that raises the 409 uses up no
    identifier. *)
Theorem user_ids_sequential (str_lower : string -> string) (cs : list Users.call) :
  let ids := issued (map user_event (fst (Users.run str_lower cs Users.init))) in
  ids = zseq 1 (List.length ids) /\
  Users._NEXT_ID (snd (Users.run str_lower cs Users.init))
  = 1 + Z.of_nat (List.length ids).
Proof.
  apply (user_run_sequential str_lower cs Users.init).
Qed.

Lemma entity_step_counter {Any} (c : Entities.call Any) st :
  create_named c = true ->
  match entity_event (c, fst (Entities.step Any c st)) with
  | Issued i =>
      i = Entities._ENTITIES_NEXT_ID st /\
      Entities._ENTITIES_NEXT_ID (snd (Entities.step Any c st))
      = Entities._ENTITIES_NEXT_ID st + 1
  | _ => Entities._ENTITIES_NEXT_ID (snd (Entities.step Any c st))
         = Entities._ENTITIES_NEXT_ID st
  end.
Proof.
  intros Hc. destruct c as [p| |i|i p|i]; simpl in *.
  - unfold Entities.Entity_of. simpl. rewrite Hc. simpl. auto.
  - destruct (Entities.Entities_of Any _); reflexivity.
  - unfold Entities.get_entity.
    destruct (Dict.get _ _) as [e|]; [destruct (Entities.Entity_of Any e)|]; reflexivity.
  - unfold Entities.update_entity.
    destruct (Dict.get _ _) as [e|]; [|reflexivity].
    simpl. destruct (Entities.Entity_of Any (Entities.apply_update Any p e));
      reflexivity.
  - unfold Entities.delete_entity. destruct (negb _); reflexivity.
Qed.

(** X25. The entity registry hands out identifiers without gaps as long as
    every create has a name of at least one character, which the create
    route guarantees: from the loaded module on, the ids returned by the
    creates are 1, 2, 3, ... in this order, and the counter is one more
    than their number. *)
Theorem entity_ids_sequential
  (Any : Type) (cs : list (Entities.call Any)) :
  forallb create_named cs = true ->
  let ids := issued (map entity_event (fst (Entities.run Any cs Entities.init))) in
  ids = zseq 1 (List.length ids) /\
  Entities._ENTITIES_NEXT_ID (snd (Entities.run Any cs Entities.init))
  = 1 + Z.of_nat (List.length ids).
Proof.
  intros Hcs.
  enough (Hgen : forall st : Entities.state Any,
             let ids := issued (map entity_event (fst (Entities.run Any cs st))) in
             ids = zseq (Entities._ENTITIES_NEXT_ID st) (List.length ids) /\
             Entities._ENTITIES_NEXT_ID (snd (Entities.run Any cs st))
             = Entities._ENTITIES_NEXT_ID st + Z.of_nat (List.length ids))
    by apply (Hgen Entities.init).
  induction cs as [|c cs IH]; intros st; cbn [Users.run Entities.run].
  - simpl. split; [reflexivity|lia].
  - simpl in Hcs. apply andb_true_iff in Hcs. destruct Hcs as [Hc Hcs].
    pose proof (entity_step_counter c st Hc) as Hstep.
    destruct (Entities.step Any c st) as [r st1]; cbn [fst snd] in *.
    specialize (IH Hcs st1).
    destruct (Entities.run Any cs st1) as [tr st2]; cbn [fst snd map] in *.
    destruct IH as [IH1 IH2].
    destruct (entity_event (c, r)) as [i|l|i|]; cbn [issued List.length zseq].
    + destruct Hstep as [-> Hn]. rewrite Hn in IH1, IH2.
      split; [now f_equal|lia].
    + rewrite Hstep in IH1, IH2. auto.
    + rewrite Hstep in IH1, IH2. auto.
    + rewrite Hstep in IH1, IH2. auto.
Qed.

Lemma entity_ids_sequential_witness :
  let cs := [Entities.CreateEntity (Entities.mkEntityCreate "Widget" None None);
             Entities.DeleteEntity 1;
             Entities.CreateEntity (Entities.mkEntityCreate "Gadget" None (Some [("a", 1)]));
             Entities.UpdateEntity 2 (Entities.mkEntityUpdate (Some "") None None);
             Entities.CreateEntity (Entities.mkEntityCreate "Sprocket" None None)] in
  issued (map entity_event (fst (Entities.run Z cs Entities.init))) = [1; 2; 3] /\
  Entities._ENTITIES_NEXT_ID (snd (Entities.run Z cs Entities.init)) = 4.
Proof.
  intros cs.
  destruct (entity_ids_sequential Z cs eq_refl) as [Hids Hnext].
  split; [exact Hids | exact Hnext].
Defined.



(** ** Records are stored in the order of their identifiers *)

Section SortedKeys.

Context {V : Type}.
Implicit Types (d : dict V) (k : Z) (v : V).

Lemma sorted_snoc (l : list Z) k :
  StronglySorted Z.lt l -> (forall x, In x l -> x < k) ->
  StronglySorted Z.lt (l ++ [k]).
Proof.
  induction 1 as [|x l Hs IH Hall]; simpl; intros Hk.
  - constructor; constructor.
  - constructor; [apply IH; auto|].
    apply Forall_app. split; [assumption|]. constructor; auto.
Qed.

Lemma sorted_keys_del k d :
  StronglySorted Z.lt (Dict.keys d) -> StronglySorted Z.lt (Dict.keys (Dict.del k d)).
Proof.
  induction d as [|[k' w] d IH]; simpl; auto.
  intros H. inversion H as [|? ? Hs Hall]; subst.
  destruct (k =? k'); simpl; auto.
  constructor; auto.
  rewrite Forall_forall in *. intros x Hx. apply Hall.
  apply in_keys_del in Hx. tauto.
Qed.

Lemma sorted_keys_set k v d :
  StronglySorted Z.lt (Dict.keys d) ->
  (Dict.get k d = None -> forall x, In x (Dict.keys d) -> x < k) ->
  StronglySorted Z.lt (Dict.keys (Dict.set k v d)).
Proof.
  intros Hs Hk. destruct (Dict.get k d) eqn:E.
  - erewrite keys_set_present; eauto.
  - rewrite keys_set_absent by assumption. apply sorted_snoc; auto.
Qed.

End SortedKeys.

Lemma user_run_sorted (str_lower : string -> string) cs st :
  user_wf st -> StronglySorted Z.lt (Dict.keys (Users._IN_MEMORY_USERS st)) ->
  StronglySorted Z.lt
    (Dict.keys (Users._IN_MEMORY_USERS (snd (Users.run str_lower cs st)))).
Proof.
  revert st. induction cs as [|c cs IH]; intros st Hwf Hs; simpl; auto.
  pose proof (user_step_wf str_lower c st Hwf) as Hwf1.
  assert (Hs1 : StronglySorted Z.lt
                  (Dict.keys (Users._IN_MEMORY_USERS (snd (Users.step str_lower c st))))).
  { destruct Hwf as (_ & _ & _ & Hb).
    destruct c as [p| |i|i p|i]; simpl.
    - unfold Users.create_user. destruct (Users.email_taken _ _ _); simpl; auto.
      apply sorted_keys_set; auto. intros _ x Hx. apply (Hb x Hx).
    - assumption.
    - unfold Users.get_user. destruct (Dict.get _ _); assumption.
    - unfold Users.update_user.
      destruct (Dict.get _ _) as [u|] eqn:E; simpl; auto.
      apply sorted_keys_set; auto. congruence.
    - unfold Users.delete_user. destruct (negb _); simpl; auto.
      now apply sorted_keys_del. }
  destruct (Users.step str_lower c st) as [r st1]; cbn [fst snd] in *.
  specialize (IH st1 Hwf1 Hs1).
  destruct (Users.run str_lower cs st1) as [tr st2]; cbn [fst snd] in *. assumption.
Qed.

Lemma entity_run_sorted {Any} (cs : list (Entities.call Any)) st :
  entity_wf st -> StronglySorted Z.lt (Dict.keys (Entities._ENTITIES st)) ->
  StronglySorted Z.lt (Dict.keys (Entities._ENTITIES (snd (Entities.run Any cs st)))).
Proof.
  revert st. induction cs as [|c cs IH]; intros st Hwf Hs; simpl; auto.
  pose proof (entity_step_wf c st Hwf) as Hwf1.
  assert (Hs1 : StronglySorted Z.lt
                  (Dict.keys (Entities._ENTITIES (snd (Entities.step Any c st))))).
  { destruct Hwf as (_ & _ & _ & Hb).
    destruct c as [p| |i|i p|i]; simpl.
    - apply sorted_keys_set; auto. intros _ x Hx. apply (Hb x Hx).
    - assumption.
    - unfold Entities.get_entity. destruct (Dict.get _ _); assumption.
    - unfold Entities.update_entity.
      destruct (Dict.get _ _) as [e|] eqn:E; simpl; auto.
      apply sorted_keys_set; auto. congruence.
    - unfold Entities.delete_entity. destruct (negb _); simpl; auto.
      now apply sorted_keys_del. }
  destruct (Entities.step Any c st) as [r st1]; cbn [fst snd] in *.
  specialize (IH st1 Hwf1 Hs1).
  destruct (Entities.run Any cs st1) as [tr st2]; cbn [fst snd] in *. assumption.
Qed.

(** X27. Lists come in the order of the identifiers: whatever calls have
    been made since the module was loaded, the users that a list returns
    have strictly increasing ids, and so have the entities that a list
    returns. *)
Theorem lists_ordered_by_id :
  (forall (str_lower : string -> string) (cs : list Users.call) l,
      fst (Users.list_users (snd (Users.run str_lower cs Users.init))) = Ok l ->
      StronglySorted Z.lt (map Users.id l)) /\
  (forall (Any : Type) (cs : list (Entities.call Any)) l,
      fst (Entities.list_entities Any (snd (Entities.run Any cs Entities.init))) = Ok l ->
      StronglySorted Z.lt (map Entities.id l)).
Proof.
  split.
  - intros str_lower cs l Hl. simpl in Hl. injection Hl as <-.
    assert (Hwf : user_wf (snd (Users.run str_lower cs Users.init)))
      by (apply user_run_invariants; [apply user_init_wf|constructor]).
    rewrite user_keyed_ids by apply Hwf.
    apply user_run_sorted; [apply user_init_wf|constructor].
  - intros Any cs l Hl. unfold Entities.list_entities in Hl. simpl in Hl.
    destruct (Entities.Entities_of Any _) as [vs|] eqn:E; simpl in Hl; [|discriminate].
    injection Hl as <-.
    assert (Hwf : entity_wf (snd (Entities.run Any cs Entities.init))).
    { apply entity_run_wf.
      split; [constructor|]. split; [constructor|]. split; [simpl; lia|].
      intros k []. }
    rewrite (Entities_of_ids _ _ E), entity_keyed_ids by apply Hwf.
    apply entity_run_sorted; [|constructor].
    split; [constructor|]. split; [constructor|]. split; [simpl; lia|].
    intros k [].
Qed.

Lemma lists_ordered_by_id_witness :
  let ucs := [Users.CreateUser (Users.mkUserCreate "a@x.com" None "secret1");
              Users.CreateUser (Users.mkUserCreate "b@x.com" None "secret2");
              Users.DeleteUser 1;
              Users.CreateUser (Users.mkUserCreate "a@x.com" None "secret3")] in
  let ecs := [Entities.CreateEntity (Entities.mkEntityCreate "Widget" None None);
              Entities.CreateEntity (Entities.mkEntityCreate "Gadget" None (Some [("a", 1)]))] in
  StronglySorted Z.lt (map Users.id [Users.mkUser 2 "b@x.com" None;
                                     Users.mkUser 3 "a@x.com" None]) /\
  StronglySorted Z.lt (map Entities.id [Entities.mkEntity 1 "Widget" None [];
                                        Entities.mkEntity 2 "Gadget" None [("a", 1)]]).
Proof.
  intros ucs ecs.
  destruct lists_ordered_by_id as [Hu He].
  split.
  - apply (Hu latin1_lower ucs). reflexivity.
  - apply (He Z ecs). reflexivity.
Defined.
